(** * 2048: the [Model] class of a3.py

    A shallow embedding of the game model (grid, score, undo credits, undo
    history) and of the operations the controller calls on it, followed by
    the properties of moves, loss detection and the bounded undo history.

    Python objects are modelled by value.  This is sound for the model
    class: every helper of [a3_support] returns a fresh matrix, so the
    grid bound to [tiles_matrix] after a move never shares cells with a
    snapshot kept in [_previous_info], and [add_tile], the only in-place
    write, acts on the current grid alone. *)

From Stdlib Require Import QArith Qround Ascii.
From stdpp Require Import base numbers option list strings.

Local Open Scope Z_scope.

(** A tile is [None] (empty) or an integer; a grid is a list of rows. *)
Abbreviation Tile := (option Z).
Abbreviation Grid := (list (list (option Z))).

(** ** The support module [a3_support]

    The model imports its constants and grid helpers from [a3_support],
    which is not part of the source tree.  They are written here after the
    specification's description of the merge algorithm. *)
Module Support.

(** Modelled from the spec: the constant [NUM_ROWS] of [a3_support]; the
    grid is a fixed 4x4 matrix. *)
Definition NUM_ROWS : nat := 4.

(** Modelled from the spec: the constant [NUM_COLS] of [a3_support]. *)
Definition NUM_COLS : nat := 4.

(** Modelled from the spec: the key constants [UP], [LEFT], [DOWN], [RIGHT]
    of [a3_support]; the four direction keys are w, a, s, d. *)
Definition UP : string := "w".
Definition LEFT : string := "a".
Definition DOWN : string := "s".
Definition RIGHT : string := "d".

(** The non-empty values of a row, in order. *)
Definition values (row : list Tile) : list Z := omap id row.

(** Modelled from the spec: one row of [stack_left] of [a3_support].
    "Remove all empty cells, preserving relative order of non-empty cells,
    then pad the remainder of the row on the right with empty cells." *)
Definition stack_row (row : list Tile) : list Tile :=
  (Some <$> values row) ++ replicate (length row - length (values row))%nat None.

(** Modelled from the spec: [stack_left] of [a3_support], row by row. *)
Definition stack_left (tiles : Grid) : Grid := stack_row <$> tiles.

(** Modelled from the spec: the left-to-right scan of one row by
    [combine_left] of [a3_support].  [cur] is the cell under the cursor
    (as the scan has left it) and [rest] the cells after it.  "Whenever two
    adjacent non-empty cells hold equal values, replace the left cell with
    double that value, clear the right cell, and add the doubled value to
    the score delta"; the cleared cell is what the cursor sees next, so a
    doubled cell is never merged again. *)
Fixpoint combine_from (cur : Tile) (rest : list Tile) : list Tile * Z :=
  match rest with
  | [] => ([cur], 0)
  | nxt :: rest' =>
      match cur with
      | Some x =>
          if bool_decide (nxt = Some x) then
            let '(r, s) := combine_from None rest' in
            (Some (2 * x) :: r, 2 * x + s)
          else
            let '(r, s) := combine_from nxt rest' in (cur :: r, s)
      | None =>
          let '(r, s) := combine_from nxt rest' in (None :: r, s)
      end
  end.

Definition combine_row (row : list Tile) : list Tile * Z :=
  match row with
  | [] => ([], 0)
  | cur :: rest => combine_from cur rest
  end.

(** Modelled from the spec: [combine_left] of [a3_support]; the score
    delta "is the sum over all rows". *)
Fixpoint combine_left (tiles : Grid) : Grid * Z :=
  match tiles with
  | [] => ([], 0)
  | row :: tiles' =>
      let '(r, s) := combine_row row in
      let '(g, s') := combine_left tiles' in
      (r :: g, s + s')
  end.

(** Modelled from the spec: [reverse] of [a3_support], "reversal of each
    row's order". *)
Definition reverse (tiles : Grid) : Grid := list.reverse <$> tiles.

(** The cell at row [r], column [c]; a cell outside the matrix reads as
    empty. *)
Definition cell (tiles : Grid) (r c : nat) : Tile :=
  match tiles !! r with
  | Some row => default None (row !! c)
  | None => None
  end.

(** Modelled from the spec: [transpose] of [a3_support], "transpose swaps
    rows/columns" of the 4x4 matrix: cell (i, j) of the result is cell
    (j, i) of the argument. *)
Definition transpose (tiles : Grid) : Grid :=
  (fun i => (fun j => cell tiles j i) <$> seq 0 NUM_COLS) <$> seq 0 NUM_ROWS.

(** The empty cells of row [i], as (row, column) positions from column [j]
    on. *)
Fixpoint empty_in_row (i j : nat) (row : list Tile) : list (nat * nat) :=
  match row with
  | [] => []
  | None :: row' => (i, j) :: empty_in_row i (S j) row'
  | Some _ :: row' => empty_in_row i (S j) row'
  end.

(** The empty cells of a grid in row-major order, from row [i] on. *)
Fixpoint empty_from (i : nat) (tiles : Grid) : list (nat * nat) :=
  match tiles with
  | [] => []
  | row :: tiles' => empty_in_row i 0 row ++ empty_from (S i) tiles'
  end.

Definition empty_positions (tiles : Grid) : list (nat * nat) :=
  empty_from 0 tiles.

(** Modelled from the spec: [generate_tile] of [a3_support].  "Scans the
    grid for all empty cells; ... selects one empty cell uniformly at
    random and writes into it the value 2 with probability 0.9 or 4 with
    probability 0.1."  The two random draws are the arguments: [pick]
    indexes the list of empty cells and [four] chooses the value.  With no
    cell to choose ([pick] out of range, in particular on a full grid)
    there is no result. *)
Definition generate_tile (pick : nat) (four : bool) (tiles : Grid)
  : option ((nat * nat) * Z) :=
  pos ← empty_positions tiles !! pick;
  Some (pos, if four then 4 else 2).

End Support.

Import Support.

(** ** The model class *)

(** The attributes of a [Model] instance.  [_valid_move] is set once by
    the constructor and never reassigned; it is the constant below. *)
Record Model := mkModel {
  tiles_matrix : Grid;
  _score : Z;
  _undos : Z;
  _previous_info : list (Grid * Z)
}.

Definition _valid_move : list string := [UP; LEFT; DOWN; RIGHT].

Definition set_tiles (g : Grid) (m : Model) : Model :=
  mkModel g (_score m) (_undos m) (_previous_info m).

Definition set_score (s : Z) (m : Model) : Model :=
  mkModel (tiles_matrix m) s (_undos m) (_previous_info m).

Definition set_previous_info (h : list (Grid * Z)) (m : Model) : Model :=
  mkModel (tiles_matrix m) (_score m) (_undos m) h.

Definition get_tiles (m : Model) : Grid := tiles_matrix m.
Definition get_score (m : Model) : Z := _score m.
Definition get_undos_remaining (m : Model) : Z := _undos m.
Definition get_previous_info (m : Model) : list (Grid * Z) := _previous_info m.

(** [add_tile]: [tiles_matrix[i][j] = value] at the generated position.
    The two arguments are the random draws of [generate_tile]. *)
Definition add_tile (pick : nat) (four : bool) (m : Model) : option Model :=
  '(pos, value) ← generate_tile pick four (tiles_matrix m);
  Some (set_tiles (alter (fun row => <[pos.2 := Some value]> row) pos.1
                         (tiles_matrix m)) m).

Definition blank_grid : Grid :=
  replicate NUM_ROWS (replicate NUM_COLS None).

(** [new_game]: a blank matrix, then two calls of [add_tile].  No other
    attribute is assigned. *)
Definition new_game (d1 d2 : nat * bool) (m : Model) : option Model :=
  m1 ← add_tile d1.1 d1.2 (set_tiles blank_grid m);
  add_tile d2.1 d2.2 m1.

(** [__init__]: [new_game] on the object under construction, then the
    initial score, undo credits and history. *)
Definition init (d1 d2 : nat * bool) : option Model :=
  m ← new_game d1 d2 (mkModel [] 0 0 []);
  Some (mkModel (tiles_matrix m) 0 3 []).

Definition move_left (m : Model) : Model :=
  let t1 := stack_left (tiles_matrix m) in
  let '(t2, score_added) := combine_left t1 in
  let t3 := stack_left t2 in
  mkModel t3 (_score m + score_added) (_undos m) (_previous_info m).

Definition move_right (m : Model) : Model :=
  let m1 := set_tiles (reverse (tiles_matrix m)) m in
  let m2 := move_left m1 in
  set_tiles (reverse (tiles_matrix m2)) m2.

Definition move_up (m : Model) : Model :=
  let m1 := set_tiles (transpose (tiles_matrix m)) m in
  let m2 := move_left m1 in
  set_tiles (transpose (tiles_matrix m2)) m2.

Definition move_down (m : Model) : Model :=
  let m1 := set_tiles (transpose (tiles_matrix m)) m in
  let m2 := move_right m1 in
  set_tiles (transpose (tiles_matrix m2)) m2.

(** [move_detected]: a key that is none of the four leaves the model as it
    is. *)
Definition move_detected (move : string) (m : Model) : Model :=
  if bool_decide (move = UP) then move_up m
  else if bool_decide (move = LEFT) then move_left m
  else if bool_decide (move = DOWN) then move_down m
  else if bool_decide (move = RIGHT) then move_right m
  else m.

(** [move_check] returns [True], [False], or falls off its end and returns
    [None] when the history is empty. *)
Definition move_check (move : string) (m : Model) : option bool * Model :=
  if bool_decide (0 < length (_previous_info m))%nat then
    let last_step := (get_tiles m, get_score m) in
    let m1 := move_detected move m in
    if bool_decide (tiles_matrix m1 <> last_step.1) then
      (Some true, set_score last_step.2 (set_tiles last_step.1 m1))
    else (Some false, m1)
  else (None, m).

(** Python truth value of what [move_check] returns. *)
Definition truthy (r : option bool) : bool := default false r.

(** [attempt_move]: the result is [None] where Python raises, which is
    [pop(0)] on an empty history (only possible with negative undos). *)
Definition attempt_move (move : string) (m : Model) : option (bool * Model) :=
  '(removed_info, info) ←
    (if bool_decide (get_undos_remaining m < Z.of_nat (length (_previous_info m)))
     then match _previous_info m with
          | [] => None
          | oldest :: info' => Some (Some oldest, info')
          end
     else Some (None, _previous_info m));
  let m1 := set_previous_info (info ++ [(get_tiles m, get_score m)]) m in
  let '(check, m2) := move_check move m1 in
  if truthy check then Some (true, move_detected move m2)
  else
    let info2 :=
      match removed_info with
      | Some oldest => oldest :: _previous_info m2
      | None => _previous_info m2
      end in
    Some (false, set_previous_info (removelast info2) m2).

Definition has_won (m : Model) : bool :=
  existsb (fun row => bool_decide (Some 2048 ∈ row)) (tiles_matrix m).

(** The list comprehension of [has_lost]: every move is checked, in order,
    each on the model the previous check left. *)
Fixpoint move_checks (moves : list string) (m : Model)
  : list (option bool) * Model :=
  match moves with
  | [] => ([], m)
  | x :: moves' =>
      let '(r, m1) := move_check x m in
      let '(rs, m2) := move_checks moves' m1 in
      (r :: rs, m2)
  end.

(** The loop of [has_lost] over the rows the iterator still has to
    visit. *)
Fixpoint has_lost_rows (rows : Grid) (m : Model) : bool * Model :=
  match rows with
  | [] => (true, m)
  | row :: rows' =>
      if bool_decide (None ∈ row) then (false, m)
      else
        let '(checks, m1) := move_checks _valid_move m in
        if existsb truthy checks then (false, m1)
        else has_lost_rows rows' m1
  end.

Definition has_lost (m : Model) : bool * Model :=
  has_lost_rows (tiles_matrix m) m.

Definition use_undo (m : Model) : Model :=
  if bool_decide (0 < _undos m) && bool_decide (0 < length (_previous_info m))%nat
  then
    match last (_previous_info m) with
    | Some a => mkModel a.1 a.2 (_undos m - 1) (removelast (_previous_info m))
    | None => m
    end
  else m.

Definition loading (tiles : Grid) (score undos : Z)
  (previous_info : list (Grid * Z)) (m : Model) : Model :=
  mkModel tiles score undos previous_info.

(** ** The specification's pure moves

    The specification describes a move as a function from a grid to the new
    grid and the score delta, computed row by row.  These definitions
    follow its words; the model's methods are compared with them below. *)
Module Spec.

(** "Stack, combine, stack", applied to one row. *)
Definition mergeRow (row : list Tile) : list Tile * Z :=
  let '(merged, delta) := combine_row (stack_row row) in
  (stack_row merged, delta).

(** "This three-step sequence must be applied per-row for a leftward move;
    total score delta for the move is the sum over all rows." *)
Definition moveLeft (G : Grid) : Grid * Z :=
  (fst <$> (mergeRow <$> G), foldr Z.add 0 (snd <$> (mergeRow <$> G))).

Definition reverseRows (G : Grid) : Grid := list.reverse <$> G.

(** "Reversal of each row's order + reapplication + reversal back
    implements Right." *)
Definition moveRight (G : Grid) : Grid * Z :=
  let '(G', delta) := moveLeft (reverseRows G) in (reverseRows G', delta).

(** "Transpose swaps rows/columns for Up/Down." *)
Definition moveUp (G : Grid) : Grid * Z :=
  let '(G', delta) := moveLeft (transpose G) in (transpose G', delta).

Definition moveDown (G : Grid) : Grid * Z :=
  let '(G', delta) := moveRight (transpose G) in (transpose G', delta).

End Spec.

(** ** Derived notions *)

(** The number of tiles on a grid. *)
Definition filled (g : Grid) : nat :=
  foldr Nat.add 0%nat ((fun row => length (values row)) <$> g).

(** A grid of [NUM_ROWS] rows of [NUM_COLS] cells. *)
Definition is_grid (g : Grid) : Prop :=
  length g = NUM_ROWS /\ Forall (fun row => length row = NUM_COLS) g.

(** A grid with no empty cell. *)
Definition full (g : Grid) : Prop := Forall (fun row => None ∉ row) g.

(** The model after a move whose outcome is the grid and score delta
    [r]. *)
Definition commit (r : Grid * Z) (m : Model) : Model :=
  mkModel r.1 (_score m + r.2) (_undos m) (_previous_info m).

(** Reduce record projections and pair projections only. *)
Ltac fields :=
  unfold get_tiles, get_score, get_undos_remaining, get_previous_info,
    set_tiles, set_score, set_previous_info, commit in *;
  cbn [tiles_matrix _score _undos _previous_info fst snd] in *.

(** The outcome of [move_detected] as a pure move: [None] for a key that
    is none of the four. *)
Definition outcome (move : string) (G : Grid) : option (Grid * Z) :=
  if bool_decide (move = UP) then Some (Spec.moveUp G)
  else if bool_decide (move = LEFT) then Some (Spec.moveLeft G)
  else if bool_decide (move = DOWN) then Some (Spec.moveDown G)
  else if bool_decide (move = RIGHT) then Some (Spec.moveRight G)
  else None.

(** Whether the move changes the grid: the comparison [move_check]
    makes. *)
Definition changes (move : string) (m : Model) : bool :=
  bool_decide (tiles_matrix (move_detected move m) <> tiles_matrix m).

(** The history [attempt_move] holds while it probes: the oldest snapshot
    dropped if the history is longer than the undo credits, then the
    current grid and score appended.  [None] where [pop(0)] raises. *)
Definition pushed (m : Model) : option (list (Grid * Z)) :=
  if bool_decide (_undos m < Z.of_nat (length (_previous_info m)))
  then match _previous_info m with
       | [] => None
       | _ :: info' => Some (info' ++ [(tiles_matrix m, _score m)])
       end
  else Some (_previous_info m ++ [(tiles_matrix m, _score m)]).

(** The bound on the history the data model states. *)
Definition history_bounded (m : Model) : Prop :=
  Z.of_nat (length (_previous_info m)) <= _undos m + 1.

(** Whether any of the four checks of [has_lost] answers [True] on [m]. *)
Definition any_check (m : Model) : bool :=
  existsb truthy ((fun x => (move_check x m).1) <$> _valid_move).

(** One call of a method of the model that may change it.  [ok] says which
    undo credits and histories [loading] is given. *)
Inductive step (ok : Z -> list (Grid * Z) -> Prop) : Model -> Model -> Prop :=
  | step_new_game d1 d2 m m' :
      new_game d1 d2 m = Some m' -> step ok m m'
  | step_add_tile pick four m m' :
      add_tile pick four m = Some m' -> step ok m m'
  | step_attempt_move move b m m' :
      attempt_move move m = Some (b, m') -> step ok m m'
  | step_has_lost m :
      step ok m (has_lost m).2
  | step_use_undo m :
      step ok m (use_undo m)
  | step_loading tiles score undos previous_info m :
      ok undos previous_info ->
      step ok m (loading tiles score undos previous_info m).

(** The states of a model from its construction on. *)
Inductive reachable (ok : Z -> list (Grid * Z) -> Prop) : Model -> Prop :=
  | reach_init d1 d2 m :
      init d1 d2 = Some m -> reachable ok m
  | reach_step m m' :
      reachable ok m -> step ok m m' -> reachable ok m'.

(** Any snapshot may be loaded. *)
Definition any_snapshot (undos : Z) (previous_info : list (Grid * Z)) : Prop :=
  True.

(** Only snapshots within the history bound are loaded. *)
Definition bounded_snapshot (undos : Z) (previous_info : list (Grid * Z)) : Prop :=
  Z.of_nat (length previous_info) <= undos + 1.

(** A starter tile: a cell that is empty or holds 2 or 4. *)
Definition starter (t : Tile) : Prop := t = None \/ t = Some 2 \/ t = Some 4.

(** The number of cells of a grid. *)
Definition cells (g : Grid) : nat := foldr Nat.add 0%nat (length <$> g).

(** ** Play and sample states *)

(** What the controller asks of the model during play: a key press, a new
    tile (with its two random draws), an undo. *)
Inductive action :=
  | Key (move : string)
  | NewTile (pick : nat) (four : bool)
  | Undo.

Definition act (a : action) (m : Model) : option Model :=
  match a with
  | Key move => snd <$> attempt_move move m
  | NewTile pick four => add_tile pick four m
  | Undo => Some (use_undo m)
  end.

Fixpoint play (actions : list action) (m : Model) : option Model :=
  match actions with
  | [] => Some m
  | a :: actions' => m1 ← act a m; play actions' m1
  end.

Definition row_2222 : list Tile := [Some 2; Some 2; Some 2; Some 2].
Definition row_44 : list Tile := [Some 4; Some 4; None; None].
Definition blank_row : list Tile := replicate NUM_COLS None.

(** A new model whose starter tiles are 2s in the first two cells. *)
Definition opening : Model :=
  mkModel [[Some 2; Some 2; None; None]; blank_row; blank_row; blank_row] 0 3 [].

(** A grid that a slide to the left does not change. *)
Definition corner_grid : Grid :=
  [[Some 4; None; None; None]; blank_row; blank_row; blank_row].

(** The opening after a committed move to the left. *)
Definition first_move : Model :=
  mkModel corner_grid 4 3 [(tiles_matrix opening, 0)].

(** The same game with its new tile. *)
Definition scored : Model :=
  mkModel [[Some 4; Some 2; None; None]; blank_row; blank_row; blank_row] 4 3
          [(tiles_matrix opening, 0)].

(** The game after three committed moves, each followed by a new tile. *)
Definition third_move : Model :=
  mkModel
    [[Some 2; Some 4; Some 2; Some 2]; blank_row; blank_row; blank_row] 4 3
    [(tiles_matrix opening, 0);
     ([[Some 4; Some 2; None; None]; blank_row; blank_row; blank_row], 4);
     ([[Some 2; None; Some 4; Some 2]; blank_row; blank_row; blank_row], 4)].

(** A full grid of equal tiles in a model with no snapshot. *)
Definition full_of_twos : Grid := replicate NUM_ROWS row_2222.

Definition fresh_full : Model := mkModel full_of_twos 0 3 [].

(** A full grid of equal tiles one committed move into a game. *)
Definition stuck_full : Model :=
  mkModel full_of_twos 4 3 [(tiles_matrix opening, 0)].

(** A snapshot with two history entries and no undo credit. *)
Definition overfull : Model :=
  loading corner_grid 4 0 [(tiles_matrix opening, 0); (corner_grid, 4)] opening.

(** ** The view's geometry

    [GameGrid] computes canvas coordinates in Python floats.  Every value
    it computes for a cell of the 4x4 grid is a multiple of 1/4 below
    1024, which binary floating point represents and adds, multiplies and
    halves without rounding; the coordinates are therefore modelled as
    rationals. *)
Module GameGrid.

Definition BOARD_WIDTH : Z := 400.
Definition BUFFER : Z := 10.

(** [box_side], set by the constructor: a true division. *)
Definition box_side : Q := (inject_Z (BOARD_WIDTH - 5 * BUFFER) / 4)%Q.

(** [_get_bbox]: (x_min, y_min, x_max, y_max) of the cell at (row, col). *)
Definition _get_bbox (position : Z * Z) : Q * Q * Q * Q :=
  let '(row, col) := position in
  let x_min := ((box_side + inject_Z BUFFER) * inject_Z col + inject_Z BUFFER)%Q in
  let y_min := ((box_side + inject_Z BUFFER) * inject_Z row + inject_Z BUFFER)%Q in
  let x_max := ((box_side + inject_Z BUFFER) * inject_Z (col + 1))%Q in
  let y_max := ((box_side + inject_Z BUFFER) * inject_Z (row + 1))%Q in
  (x_min, y_min, x_max, y_max).

(** [_get_midpoint]: the floor divisions by 2 give whole numbers. *)
Definition _get_midpoint (position : Z * Z) : Z * Z :=
  let '(x_min, y_min, x_max, y_max) := _get_bbox position in
  let x_mid := Qfloor ((x_min + x_max) / 2) in
  let y_mid := Qfloor ((y_min + y_max) / 2) in
  (x_mid, y_mid).

(** The positions [redraw] visits: [range(NUM_ROWS)] by
    [range(NUM_COLS)]. *)
Definition on_grid (position : Z * Z) : Prop :=
  (0 <= position.1 < Z.of_nat NUM_ROWS) /\ (0 <= position.2 < Z.of_nat NUM_COLS).

End GameGrid.

(** ** The controller and the file handlers *)




(** Python's [s.split(sep)] for a one-character separator: the pieces
    between the separators, at least one piece. *)
Fixpoint str_split (sep : ascii) (s : string) : list string :=
  match s with
  | EmptyString => [EmptyString]
  | String c s' =>
      if bool_decide (c = sep) then EmptyString :: str_split sep s'
      else match str_split sep s' with
           | piece :: pieces => String c piece :: pieces
           | [] => [String c EmptyString]
           end
  end.

(** The pieces put together again, with the separator between them. *)
Fixpoint str_join (sep : ascii) (pieces : list string) : string :=
  match pieces with
  | [] => EmptyString
  | [piece] => piece
  | piece :: pieces' => String.append piece (String sep (str_join sep pieces'))
  end.

(** [filepath.name.split('.')[-1]] of [load_game]. *)
Definition extension (name : string) : string :=
  default EmptyString (last (str_split "."%char name)).

(** The file type test of [load_game]: the file is read when the extension
    is "save", and the error box is shown otherwise. *)
Definition correct_file_type (name : string) : bool :=
  bool_decide (extension name = "save").

(** ** Notions for play without faults *)

(** [loading] is given undo credits from 0 to 3. *)
Definition credits_in_range (undos : Z) (previous_info : list (Grid * Z)) : Prop :=
  0 <= undos <= 3.

(** A tile that is empty or a power of two from 2 on. *)
Definition tile_ok (t : Tile) : Prop :=
  match t with
  | None => True
  | Some v => exists k : nat, v = 2 ^ Z.of_nat (S k)
  end.

(** A 4x4 grid of such tiles. *)
Definition grid_ok (g : Grid) : Prop := is_grid g /\ Forall (Forall tile_ok) g.

(** A grid and score as play produces them. *)
Definition snapshot_ok (p : Grid * Z) : Prop := grid_ok p.1 /\ 0 <= p.2.

Definition model_ok (m : Model) : Prop :=
  snapshot_ok (tiles_matrix m, _score m) /\ Forall snapshot_ok (_previous_info m).

(** Nothing is loaded. *)
Definition no_snapshot (undos : Z) (previous_info : list (Grid * Z)) : Prop :=
  False.

(** ** Rows: stacking and combining *)

Section Rows.

Implicit Types (row rest : list Tile) (cur : Tile).

Lemma values_some (l : list Z) : values (Some <$> l) = l.
Proof.
  unfold values. induction l as [|x l IH]; [done|]. cbn. by rewrite IH.
Qed.

Lemma values_blank (n : nat) : values (replicate n None) = [].
Proof. induction n as [|n IH]; [done|]. exact IH. Qed.

Lemma values_length_le row : (length (values row) <= length row)%nat.
Proof.
  unfold values. induction row as [|[x|] row IH]; cbn in *; lia.
Qed.

Lemma values_stack_row row : values (stack_row row) = values row.
Proof.
  unfold stack_row, values. rewrite omap_app.
  fold (values (Some <$> omap id row)). rewrite values_some.
  fold (values (replicate (length row - length (omap id row)) None)).
  by rewrite values_blank, app_nil_r.
Qed.

Lemma length_stack_row row : length (stack_row row) = length row.
Proof.
  unfold stack_row. rewrite length_app, length_fmap, length_replicate.
  pose proof (values_length_le row). lia.
Qed.

Lemma values_reverse row : values (list.reverse row) = list.reverse (values row).
Proof.
  unfold values. induction row as [|t row IH]; [done|].
  rewrite reverse_cons, omap_app, IH. destruct t; simpl; [|by rewrite app_nil_r].
  by rewrite reverse_cons.
Qed.

Lemma length_combine_from cur rest :
  length (combine_from cur rest).1 = S (length rest).
Proof.
  revert cur. induction rest as [|nxt rest IH]; intros cur; [done|].
  simpl. destruct cur as [x|].
  - case_bool_decide.
    + specialize (IH None). destruct (combine_from None rest). simpl in *. lia.
    + specialize (IH nxt). destruct (combine_from nxt rest). simpl in *. lia.
  - specialize (IH nxt). destruct (combine_from nxt rest). simpl in *. lia.
Qed.

Lemma length_combine_row row : length (combine_row row).1 = length row.
Proof. destruct row; [done|]. apply length_combine_from. Qed.

(** A merge removes a tile: the scan never adds tiles, and it changes the
    score only when it has removed one. *)
Lemma combine_from_values cur rest :
  (length (values (combine_from cur rest).1) <= length (values (cur :: rest)))%nat
  /\ ((combine_from cur rest).2 <> 0 ->
      (length (values (combine_from cur rest).1) < length (values (cur :: rest)))%nat).
Proof.
  revert cur. induction rest as [|nxt rest IH]; intros cur.
  - simpl. split; [lia|done].
  - simpl. destruct cur as [x|].
    + case_bool_decide as Heq.
      * subst nxt. destruct (IH None) as [Hle _].
        destruct (combine_from None rest) as [r s]. simpl in *. lia.
      * destruct (IH nxt) as [Hle Hlt].
        destruct (combine_from nxt rest) as [r s]. simpl in *.
        split; [lia|]. intros Hs. specialize (Hlt Hs). lia.
    + destruct (IH nxt) as [Hle Hlt].
      destruct (combine_from nxt rest) as [r s]. simpl in *. done.
Qed.

Lemma combine_row_values row :
  (length (values (combine_row row).1) <= length (values row))%nat
  /\ ((combine_row row).2 <> 0 ->
      (length (values (combine_row row).1) < length (values row))%nat).
Proof. destruct row; [by split|]. apply combine_from_values. Qed.

End Rows.

(** ** Grids: tile counts and shapes *)

Section Grids.

Implicit Types (g : Grid).

Lemma filled_cons (row : list Tile) g :
  filled (row :: g) = (length (values row) + filled g)%nat.
Proof. reflexivity. Qed.

Lemma filled_stack_left g : filled (stack_left g) = filled g.
Proof.
  induction g as [|row g IH]; [done|].
  change (stack_left (row :: g)) with (stack_row row :: stack_left g).
  by rewrite !filled_cons, values_stack_row, IH.
Qed.

Lemma filled_reverse g : filled (reverse g) = filled g.
Proof.
  induction g as [|row g IH]; [done|].
  change (reverse (row :: g)) with (list.reverse row :: reverse g).
  by rewrite !filled_cons, values_reverse, length_reverse, IH.
Qed.

Lemma filled_combine_left g :
  (filled (combine_left g).1 <= filled g)%nat
  /\ ((combine_left g).2 <> 0 -> (filled (combine_left g).1 < filled g)%nat).
Proof.
  induction g as [|row g [IHle IHlt]]; [by split|].
  simpl. destruct (combine_row_values row) as [Hle Hlt].
  destruct (combine_row row) as [r s], (combine_left g) as [g' s'].
  simpl in *. rewrite !filled_cons. split; [lia|]. intros Hs.
  destruct (decide (s = 0)) as [->|Hs0].
  - assert (s' <> 0) as Hs' by lia. specialize (IHlt Hs'). lia.
  - specialize (Hlt Hs0). lia.
Qed.

Lemma is_grid_stack_left g : is_grid g -> is_grid (stack_left g).
Proof.
  intros [Hn Hrows]. split; [by unfold stack_left; rewrite length_fmap|].
  unfold stack_left. apply Forall_fmap. eapply Forall_impl; [exact Hrows|].
  intros row Hrow. simpl. by rewrite length_stack_row.
Qed.

Lemma is_grid_reverse g : is_grid g -> is_grid (reverse g).
Proof.
  intros [Hn Hrows]. split; [by unfold reverse; rewrite length_fmap|].
  unfold reverse. apply Forall_fmap. eapply Forall_impl; [exact Hrows|].
  intros row Hrow. simpl. by rewrite length_reverse.
Qed.

Lemma is_grid_combine_left g : is_grid g -> is_grid (combine_left g).1.
Proof.
  intros [Hn Hrows]. unfold is_grid. generalize dependent NUM_ROWS.
  induction Hrows as [|row g Hrow Hrows IH]; intros n Hn; [by split|].
  simpl. pose proof (length_combine_row row) as Hlen.
  destruct (combine_row row) as [r s]. destruct n as [|n]; [done|].
  destruct (IH n) as [IH1 IH2]; [by injection Hn|].
  destruct (combine_left g) as [g' s']. simpl in *.
  split; [by rewrite IH1|]. constructor; [congruence|done].
Qed.

Lemma is_grid_transpose g : is_grid (transpose g).
Proof. split; [done|]. repeat constructor. Qed.

(** On a 4x4 matrix transposing twice gives the matrix back. *)
Lemma transpose_involutive g : is_grid g -> transpose (transpose g) = g.
Proof.
  intros [Hn Hrows].
  do 5 (destruct g as [|? g]; try discriminate Hn). clear Hn.
  repeat match goal with
         | H : Forall _ (_ :: _) |- _ => apply Forall_cons in H as [? H]
         end.
  repeat match goal with
         | H : length ?row = NUM_COLS |- _ =>
             do 5 (destruct row as [|? row]; try discriminate H); clear H
         end.
  reflexivity.
Qed.

Lemma reverse_involutive g : reverse (reverse g) = g.
Proof.
  unfold reverse. rewrite <- list_fmap_compose.
  rewrite <- (list_fmap_id g) at 2. apply list_fmap_ext.
  intros _ row _. apply list.reverse_involutive.
Qed.

End Grids.

(** ** The four moves *)

Section Moves.

Implicit Types (g G : Grid) (m : Model).

Lemma mergeRow_values (row : list Tile) :
  (length (values (Spec.mergeRow row).1) <= length (values row))%nat
  /\ ((Spec.mergeRow row).2 <> 0 ->
      (length (values (Spec.mergeRow row).1) < length (values row))%nat).
Proof.
  unfold Spec.mergeRow.
  destruct (combine_row_values (stack_row row)) as [Hle Hlt].
  destruct (combine_row (stack_row row)) as [r s]. simpl in *.
  rewrite values_stack_row in *. done.
Qed.

Lemma length_mergeRow (row : list Tile) :
  length (Spec.mergeRow row).1 = length row.
Proof.
  unfold Spec.mergeRow. pose proof (length_combine_row (stack_row row)) as H.
  destruct (combine_row (stack_row row)) as [r s]. simpl in *.
  by rewrite length_stack_row, H, length_stack_row.
Qed.

Lemma moveLeft_cons (row : list Tile) G :
  Spec.moveLeft (row :: G) =
  ((Spec.mergeRow row).1 :: (Spec.moveLeft G).1,
   (Spec.mergeRow row).2 + (Spec.moveLeft G).2).
Proof. reflexivity. Qed.

Lemma moveLeft_app G1 G2 :
  Spec.moveLeft (G1 ++ G2) =
  ((Spec.moveLeft G1).1 ++ (Spec.moveLeft G2).1,
   (Spec.moveLeft G1).2 + (Spec.moveLeft G2).2).
Proof.
  induction G1 as [|row G1 IH].
  - change (Spec.moveLeft []) with (([] : Grid), 0).
    cbn [fst snd app Z.add]. by destruct (Spec.moveLeft G2).
  - rewrite <- app_comm_cons, !moveLeft_cons, IH. cbn [fst snd].
    f_equal. lia.
Qed.

(** The whole-grid passes of [move_left] compute the row-by-row merge. *)
Lemma stack_combine_stack G :
  (stack_left (combine_left (stack_left G)).1, (combine_left (stack_left G)).2)
  = Spec.moveLeft G.
Proof.
  induction G as [|row G IH]; [done|].
  rewrite moveLeft_cons, <- IH.
  change (stack_left (row :: G)) with (stack_row row :: stack_left G).
  simpl. unfold Spec.mergeRow.
  destruct (combine_row (stack_row row)) as [r s].
  by destruct (combine_left (stack_left G)) as [g' s'].
Qed.

Lemma move_left_commit m : move_left m = commit (Spec.moveLeft (tiles_matrix m)) m.
Proof.
  unfold move_left, commit. rewrite <- stack_combine_stack.
  by destruct (combine_left (stack_left (tiles_matrix m))).
Qed.

Lemma move_right_commit m : move_right m = commit (Spec.moveRight (tiles_matrix m)) m.
Proof.
  unfold move_right. rewrite move_left_commit. unfold Spec.moveRight. fields.
  change Spec.reverseRows with reverse. by destruct (Spec.moveLeft _).
Qed.

Lemma move_up_commit m : move_up m = commit (Spec.moveUp (tiles_matrix m)) m.
Proof.
  unfold move_up. rewrite move_left_commit. unfold Spec.moveUp. fields.
  by destruct (Spec.moveLeft _).
Qed.

Lemma move_down_commit m : move_down m = commit (Spec.moveDown (tiles_matrix m)) m.
Proof.
  unfold move_down. rewrite move_right_commit. unfold Spec.moveDown. fields.
  by destruct (Spec.moveRight _).
Qed.

Lemma moveLeft_filled G :
  (filled (Spec.moveLeft G).1 <= filled G)%nat
  /\ ((Spec.moveLeft G).2 <> 0 -> (filled (Spec.moveLeft G).1 < filled G)%nat).
Proof.
  induction G as [|row G [IHle IHlt]]; [by split|].
  rewrite moveLeft_cons. fields. rewrite !filled_cons.
  destruct (mergeRow_values row) as [Hle Hlt]. split; [lia|]. intros Hs.
  destruct (decide ((Spec.mergeRow row).2 = 0)) as [H0|H0].
  - rewrite H0 in Hs. assert ((Spec.moveLeft G).2 <> 0) as Hs' by lia.
    specialize (IHlt Hs'). lia.
  - specialize (Hlt H0). lia.
Qed.

Lemma is_grid_moveLeft G : is_grid G -> is_grid (Spec.moveLeft G).1.
Proof.
  intros [Hn Hrows]. split.
  - unfold Spec.moveLeft. simpl. by rewrite !length_fmap.
  - unfold Spec.moveLeft. simpl. apply Forall_fmap, Forall_fmap.
    eapply Forall_impl; [exact Hrows|]. intros row Hrow. simpl.
    by rewrite length_mergeRow.
Qed.

Lemma is_grid_moveRight G : is_grid G -> is_grid (Spec.moveRight G).1.
Proof.
  intros HG. unfold Spec.moveRight.
  pose proof (is_grid_moveLeft _ (is_grid_reverse _ HG)) as H.
  unfold reverse in H. unfold Spec.reverseRows.
  destruct (Spec.moveLeft _) as [G' d]. by apply is_grid_reverse.
Qed.

(** A move that leaves the grid as it was has merged nothing. *)
Lemma moveLeft_fixed G : (Spec.moveLeft G).1 = G -> (Spec.moveLeft G).2 = 0.
Proof.
  intros Heq. destruct (moveLeft_filled G) as [_ Hlt].
  destruct (decide ((Spec.moveLeft G).2 = 0)) as [|Hne]; [done|].
  specialize (Hlt Hne). rewrite Heq in Hlt. lia.
Qed.

Lemma moveRight_fixed G : (Spec.moveRight G).1 = G -> (Spec.moveRight G).2 = 0.
Proof.
  unfold Spec.moveRight. intros Heq.
  destruct (moveLeft_filled (Spec.reverseRows G)) as [_ Hlt].
  destruct (Spec.moveLeft (Spec.reverseRows G)) as [G' d]. fields.
  destruct (decide (d = 0)) as [|Hne]; [done|]. specialize (Hlt Hne).
  pose proof (filled_reverse G') as H1. pose proof (filled_reverse G) as H2.
  unfold reverse in *. unfold Spec.reverseRows in *. rewrite Heq in H1. lia.
Qed.

Lemma moveUp_fixed G : (Spec.moveUp G).1 = G -> (Spec.moveUp G).2 = 0.
Proof.
  unfold Spec.moveUp. intros Heq.
  pose proof (is_grid_moveLeft _ (is_grid_transpose G)) as Hshape.
  pose proof (moveLeft_fixed (transpose G)) as Hfix.
  destruct (Spec.moveLeft (transpose G)) as [G' d]. fields.
  apply Hfix. subst G. by rewrite transpose_involutive.
Qed.

Lemma moveDown_fixed G : (Spec.moveDown G).1 = G -> (Spec.moveDown G).2 = 0.
Proof.
  unfold Spec.moveDown. intros Heq.
  pose proof (is_grid_moveRight _ (is_grid_transpose G)) as Hshape.
  pose proof (moveRight_fixed (transpose G)) as Hfix.
  destruct (Spec.moveRight (transpose G)) as [G' d]. fields.
  apply Hfix. subst G. by rewrite transpose_involutive.
Qed.

Lemma commit_fixed (r : Grid * Z) m :
  (r.1 = tiles_matrix m -> r.2 = 0) ->
  tiles_matrix (commit r m) = tiles_matrix m -> commit r m = m.
Proof.
  intros Hfix Heq. unfold commit in *. simpl in Heq.
  rewrite (Hfix Heq), Heq, Z.add_0_r. by destruct m.
Qed.

Lemma move_detected_outcome (move : string) m :
  move_detected move m =
  match outcome move (tiles_matrix m) with
  | Some r => commit r m
  | None => m
  end.
Proof.
  unfold move_detected, outcome.
  repeat case_bool_decide;
    auto using move_up_commit, move_left_commit, move_down_commit,
               move_right_commit.
Qed.

Lemma move_detected_fixed (move : string) m :
  tiles_matrix (move_detected move m) = tiles_matrix m ->
  move_detected move m = m.
Proof.
  rewrite move_detected_outcome. unfold outcome.
  repeat case_bool_decide; try done; apply commit_fixed;
    auto using moveUp_fixed, moveLeft_fixed, moveDown_fixed, moveRight_fixed.
Qed.

(** A move touches neither the undo credits nor the history. *)
Lemma move_detected_undos (move : string) m :
  _undos (move_detected move m) = _undos m.
Proof.
  rewrite move_detected_outcome. by destruct (outcome move (tiles_matrix m)).
Qed.

Lemma move_detected_previous_info (move : string) m :
  _previous_info (move_detected move m) = _previous_info m.
Proof.
  rewrite move_detected_outcome. by destruct (outcome move (tiles_matrix m)).
Qed.

(** The grid and score after a move do not depend on the history. *)
Lemma move_detected_set_previous_info (move : string) h m :
  move_detected move (set_previous_info h m) =
  set_previous_info h (move_detected move m).
Proof.
  rewrite !move_detected_outcome. simpl.
  by destruct (outcome move (tiles_matrix m)).
Qed.

End Moves.

(** ** Probing and attempting a move *)

Section Attempt.

Implicit Types (m : Model) (move : string).

Lemma set_previous_info_id m : set_previous_info (_previous_info m) m = m.
Proof. by destruct m. Qed.

(** [move_check] hands back the state it was given, whatever it
    answers. *)
Lemma move_check_state move m : (move_check move m).2 = m.
Proof.
  unfold move_check. case_bool_decide as Hlen; [|done].
  fields. case_bool_decide as Hch; fields.
  - unfold set_score, set_tiles. fields.
    rewrite move_detected_undos, move_detected_previous_info. by destruct m.
  - apply move_detected_fixed. by destruct (decide (tiles_matrix (move_detected move m) = tiles_matrix m)).
Qed.

Lemma move_check_result move m :
  (move_check move m).1 =
  if bool_decide (_previous_info m <> []) then Some (changes move m) else None.
Proof.
  unfold move_check, changes. destruct (_previous_info m) as [|a h] eqn:Hh.
  - done.
  - rewrite (bool_decide_eq_true_2 (0 < length (a :: h))%nat); [|simpl; lia].
    rewrite (bool_decide_eq_true_2 (a :: h <> [])); [|done].
    fields. by case_bool_decide.
Qed.

(** [attempt_move] in one equation: with the history it probes under, the
    move is committed if it changes the grid, and otherwise the given
    state is the result. *)
Lemma attempt_move_eq move m :
  attempt_move move m =
  h ← pushed m;
  Some (if changes move m
        then (true, set_previous_info h (move_detected move m))
        else (false, m)).
Proof.
  assert (forall removed info,
    (let m1 := set_previous_info (info ++ [(get_tiles m, get_score m)]) m in
     let '(check, m2) := move_check move m1 in
     if truthy check then Some (true, move_detected move m2)
     else
       let info2 :=
         match removed with
         | Some oldest => oldest :: _previous_info m2
         | None => _previous_info m2
         end in
       Some (false, set_previous_info (removelast info2) m2))
    = Some (if changes move m
            then (true, set_previous_info (info ++ [(tiles_matrix m, _score m)])
                          (move_detected move m))
            else (false,
                  set_previous_info
                    (match removed with
                     | Some oldest => oldest :: info
                     | None => info
                     end) m))) as Hbody.
  { intros removed info. cbv zeta.
    pose proof (move_check_state move
      (set_previous_info (info ++ [(get_tiles m, get_score m)]) m)) as Hst.
    pose proof (move_check_result move
      (set_previous_info (info ++ [(get_tiles m, get_score m)]) m)) as Hres.
    destruct (move_check move _) as [check m2].
    unfold get_tiles, get_score in *. cbn [fst snd] in Hst, Hres.
    subst m2 check. cbn [_previous_info set_previous_info].
    rewrite bool_decide_eq_true_2 by (by destruct info).
    assert (changes move (set_previous_info
              (info ++ [(tiles_matrix m, _score m)]) m) = changes move m) as ->.
    { unfold changes. by rewrite move_detected_set_previous_info. }
    unfold truthy, default. destruct (changes move m).
    - by rewrite move_detected_set_previous_info.
    - f_equal. f_equal. unfold set_previous_info. cbn [_previous_info].
      destruct removed as [oldest|].
      + by rewrite app_comm_cons, removelast_last.
      + by rewrite removelast_last. }
  unfold attempt_move, pushed, get_undos_remaining.
  case_bool_decide as Hlen.
  - destruct (_previous_info m) as [|oldest info] eqn:Hh; [done|].
    cbn [mbind option_bind]. etrans; [exact (Hbody (Some oldest) info)|].
    destruct (changes move m); [done|]. rewrite <- Hh.
    by rewrite set_previous_info_id.
  - cbn [mbind option_bind]. etrans; [exact (Hbody None (_previous_info m))|].
    destruct (changes move m); [done|]. by rewrite set_previous_info_id.
Qed.

(** With undo credits that are not negative, [pop(0)] cannot fail. *)
Lemma pushed_is_Some m : 0 <= _undos m -> is_Some (pushed m).
Proof.
  intros Hu. unfold pushed. case_bool_decide as Hlen; [|done].
  destruct (_previous_info m); [simpl in Hlen; lia|done].
Qed.

Lemma pushed_length m h :
  pushed m = Some h ->
  Z.of_nat (length h) <= Z.max (Z.of_nat (length (_previous_info m))) (_undos m + 1).
Proof.
  unfold pushed. case_bool_decide as Hlen.
  - destruct (_previous_info m) as [|a info]; [done|].
    intros [= <-]. rewrite length_app. simpl. lia.
  - intros [= <-]. rewrite length_app. simpl. lia.
Qed.

(** A rejected move leaves the model as it was. *)
Lemma attempt_move_rejected move m m' :
  attempt_move move m = Some (false, m') -> m' = m.
Proof.
  rewrite attempt_move_eq. destruct (pushed m) as [h|]; [|done].
  cbn [mbind option_bind]. destruct (changes move m); congruence.
Qed.

(** A key that is none of the four changes nothing. *)
Lemma changes_invalid move m : move ∉ _valid_move -> changes move m = false.
Proof.
  intros Hnot. unfold changes. apply bool_decide_eq_false_2.
  intros Hne. apply Hne. unfold move_detected.
  repeat case_bool_decide; try done; subst move; exfalso; apply Hnot;
    unfold _valid_move; repeat constructor.
Qed.

End Attempt.

(** ** Loss detection *)

Section Loss.

Implicit Types (m : Model).

Lemma move_checks_spec (moves : list string) m :
  move_checks moves m = ((fun x => (move_check x m).1) <$> moves, m).
Proof.
  induction moves as [|x moves IH]; [done|]. simpl.
  pose proof (move_check_state x m) as Hst.
  destruct (move_check x m) as [r m1]. simpl in Hst. subst m1.
  by rewrite IH.
Qed.

Lemma has_lost_rows_state (rows : Grid) m : (has_lost_rows rows m).2 = m.
Proof.
  induction rows as [|row rows IH]; [done|]. cbn [has_lost_rows].
  case_bool_decide; [done|]. rewrite move_checks_spec.
  by destruct (existsb truthy _).
Qed.

Lemma has_lost_rows_true (rows : Grid) m :
  (has_lost_rows rows m).1 = true <->
  Forall (fun row => (None ∉ row) /\ any_check m = false) rows.
Proof.
  induction rows as [|row rows IH]; [by split|]. cbn [has_lost_rows].
  rewrite Forall_cons. case_bool_decide as Hnone.
  - simpl. split; [done|]. by intros [[? _] _].
  - rewrite move_checks_spec. fold (any_check m).
    destruct (any_check m) eqn:Hany; simpl.
    + split; [done|]. by intros [[_ ?] _].
    + rewrite IH. by intuition.
Qed.

(** With an empty history every check falls through. *)
Lemma any_check_no_history m : _previous_info m = [] -> any_check m = false.
Proof.
  intros Hh. unfold any_check, _valid_move. simpl.
  rewrite !move_check_result, Hh. done.
Qed.

Lemma any_check_history m :
  _previous_info m <> [] ->
  (any_check m = false <-> forall move, move ∈ _valid_move -> changes move m = false).
Proof.
  intros Hh. unfold any_check, _valid_move. simpl.
  rewrite !move_check_result, !bool_decide_eq_true_2 by done. simpl.
  split.
  - intros Hany move Hin.
    repeat (apply elem_of_cons in Hin as [->|Hin]);
      [| | | |by apply elem_of_nil in Hin];
      by repeat (apply orb_false_elim in Hany as [? Hany] || destruct Hany).
  - intros Hall. rewrite !Hall; [done|..]; repeat constructor.
Qed.

(** X19. Whenever a cell of the grid is empty, [has_lost] answers
    [False], whatever the history. *)
Lemma has_lost_empty_cell m (row : list Tile) :
  row ∈ tiles_matrix m -> None ∈ row -> (has_lost m).1 = false.
Proof.
  intros Hrow Hnone. apply not_true_is_false. unfold has_lost.
  rewrite has_lost_rows_true, Forall_forall. intros Hall.
  by destruct (Hall row Hrow).
Qed.

(** With a snapshot in the history the answer is the documented one. *)
Lemma has_lost_history m :
  _previous_info m <> [] -> tiles_matrix m <> [] ->
  ((has_lost m).1 = true <->
   full (tiles_matrix m)
   /\ (forall move, move ∈ _valid_move -> changes move m = false)).
Proof.
  intros Hh Hg. unfold has_lost, full.
  rewrite has_lost_rows_true, !Forall_forall, <- any_check_history by done.
  split.
  - intros Hall. destruct (tiles_matrix m) as [|row rows] eqn:Hrows; [done|].
    split; [intros r Hr; by destruct (Hall r Hr)|].
    destruct (Hall row) as [_ ?]; [constructor|done].
  - intros [Hfull Hany] row Hrow. split; [by apply Hfull|done].
Qed.

(** *** Neighbouring equal tiles on a full grid *)

Lemma stack_row_full (row : list Tile) : None ∉ row -> stack_row row = row.
Proof.
  intros Hfull.
  assert (Some <$> values row = row) as Hvals.
  { unfold values. induction row as [|[x|] row IH]; [done| |].
    - cbn. f_equal. apply IH. by apply not_elem_of_cons in Hfull as [_ ?].
    - by apply not_elem_of_cons in Hfull as [? _]. }
  assert (length (values row) = length row) as Hlen.
  { rewrite <- Hvals at 2. by rewrite length_fmap. }
  unfold stack_row. by rewrite Hvals, Hlen, Nat.sub_diag, app_nil_r.
Qed.

(** Two equal tiles next to each other make the scan merge at least
    once. *)
Lemma combine_from_pair (cur : Tile) (rest : list Tile) j x :
  (cur :: rest) !! j = Some (Some x) ->
  (cur :: rest) !! S j = Some (Some x) ->
  (length (values (combine_from cur rest).1)
   < length (values (cur :: rest)))%nat.
Proof.
  revert cur j. induction rest as [|nxt rest IH]; intros cur j Hj HSj; [done|].
  cbn [combine_from]. destruct cur as [y|].
  - case_bool_decide as Heq.
    + subst nxt. destruct (combine_from_values None rest) as [Hle _].
      destruct (combine_from None rest) as [r s]. unfold values in *.
      cbn in *. lia.
    + destruct j as [|j].
      * injection Hj as ->. by injection HSj as ->.
      * specialize (IH nxt j Hj HSj).
        destruct (combine_from nxt rest) as [r s]. unfold values in *.
        cbn in *. lia.
  - destruct j as [|j]; [done|]. specialize (IH nxt j Hj HSj).
    destruct (combine_from nxt rest) as [r s]. unfold values in *.
    cbn in *. lia.
Qed.

Lemma mergeRow_pair (row : list Tile) j x :
  None ∉ row -> row !! j = Some (Some x) -> row !! S j = Some (Some x) ->
  (Spec.mergeRow row).1 <> row.
Proof.
  intros Hfull Hj HSj. unfold Spec.mergeRow. rewrite (stack_row_full row Hfull).
  destruct row as [|cur rest]; [done|]. cbn [combine_row].
  pose proof (combine_from_pair cur rest j x Hj HSj) as Hlt.
  destruct (combine_from cur rest) as [r s]. cbn [fst snd] in *. intros Heq.
  rewrite <- Heq, values_stack_row in Hlt. lia.
Qed.

Lemma moveLeft_rows_fixed (G : Grid) (row : list Tile) :
  (Spec.moveLeft G).1 = G -> row ∈ G -> (Spec.mergeRow row).1 = row.
Proof.
  induction G as [|row0 G IH]; intros Heq Hin.
  - by apply elem_of_nil in Hin.
  - rewrite moveLeft_cons in Heq. injection Heq as Hrow HG.
    apply elem_of_cons in Hin as [->|Hin]; [done|by apply IH].
Qed.

Lemma cell_lookup (G : Grid) r c x :
  cell G r c = Some x ->
  exists row : list Tile, G !! r = Some row /\ row !! c = Some (Some x).
Proof.
  unfold cell. destruct (G !! r) as [row|]; [|done].
  destruct (row !! c) as [t|] eqn:Hc; [|done]. simpl. intros ->. by exists row.
Qed.

Lemma moveLeft_pair (G : Grid) r c x :
  full G -> cell G r c = Some x -> cell G r (S c) = Some x ->
  (Spec.moveLeft G).1 <> G.
Proof.
  intros Hfull Hc HSc Heq.
  apply cell_lookup in Hc as (row & Hrow & Hc).
  apply cell_lookup in HSc as (row' & Hrow' & HSc).
  assert (row' = row) as -> by congruence.
  apply (mergeRow_pair row c x); [|done|done|].
  - unfold full in Hfull. rewrite Forall_forall in Hfull.
    by eapply Hfull, list_elem_of_lookup_2.
  - by eapply moveLeft_rows_fixed, list_elem_of_lookup_2.
Qed.

Lemma transpose_cell (G : Grid) i j :
  (i < NUM_ROWS)%nat -> (j < NUM_COLS)%nat ->
  cell (transpose G) i j = cell G j i.
Proof.
  unfold NUM_ROWS, NUM_COLS. intros Hi Hj.
  do 4 (destruct i as [|i]; [do 4 (destruct j as [|j]; [reflexivity|]); lia|]).
  lia.
Qed.

Lemma cell_in_grid (G : Grid) r c x :
  is_grid G -> cell G r c = Some x -> (r < NUM_ROWS)%nat /\ (c < NUM_COLS)%nat.
Proof.
  intros [Hn Hrows] Hcell. apply cell_lookup in Hcell as (row & Hrow & Hc).
  rewrite Forall_forall in Hrows.
  rewrite <- Hn, <- (Hrows row) by (by eapply list_elem_of_lookup_2).
  split; by eapply lookup_lt_Some.
Qed.

Lemma full_transpose (G : Grid) : is_grid G -> full G -> full (transpose G).
Proof.
  intros [Hn Hrows] Hfull. unfold full in *.
  do 5 (destruct G as [|? G]; try discriminate Hn). clear Hn.
  repeat match goal with
         | H : Forall _ (_ :: _) |- _ => apply Forall_cons in H as [? H]
         end.
  repeat match goal with
         | H : length ?row = NUM_COLS |- _ =>
             do 5 (destruct row as [|? row]; try discriminate H); clear H
         end.
  repeat match goal with
         | H : _ ∉ _ :: _ |- _ => apply not_elem_of_cons in H as [? H]
         end.
  cbv [transpose NUM_ROWS NUM_COLS seq fmap list_fmap cell lookup list_lookup
       default id].
  repeat constructor; intros Hin;
    repeat (apply elem_of_cons in Hin as [Hin|Hin]; [congruence|]);
    by apply elem_of_nil in Hin.
Qed.

Lemma moveUp_pair (G : Grid) r c x :
  is_grid G -> full G -> cell G r c = Some x -> cell G (S r) c = Some x ->
  (Spec.moveUp G).1 <> G.
Proof.
  intros HG Hfull Hc HSc.
  destruct (cell_in_grid G r c x HG Hc) as [Hr Hcol].
  destruct (cell_in_grid G (S r) c x HG HSc) as [HSr _].
  pose proof (moveLeft_pair (transpose G) c r x (full_transpose G HG Hfull)) as Hne.
  unfold NUM_ROWS, NUM_COLS in *.
  rewrite !transpose_cell in Hne by (unfold NUM_ROWS, NUM_COLS; lia).
  specialize (Hne Hc HSc).
  pose proof (is_grid_moveLeft _ (is_grid_transpose G)) as Hshape.
  unfold Spec.moveUp. destruct (Spec.moveLeft (transpose G)) as [G' d].
  cbn [fst snd] in *. intros Heq. apply Hne. subst G.
  by rewrite transpose_involutive.
Qed.

(** X20. With a snapshot in the history, a full 4x4 grid with two equal
    tiles next to each other in a row or in a column is not lost. *)
Lemma has_lost_adjacent_pair m r c x :
  _previous_info m <> [] ->
  is_grid (tiles_matrix m) -> full (tiles_matrix m) ->
  cell (tiles_matrix m) r c = Some x ->
  cell (tiles_matrix m) r (S c) = Some x
  \/ cell (tiles_matrix m) (S r) c = Some x ->
  (has_lost m).1 = false.
Proof.
  intros Hh HG Hfull Hc Hpair. apply not_true_is_false. intros Hlost.
  apply has_lost_history in Hlost as [_ Hmoves]; [|done|].
  2:{ destruct HG as [Hn _]. by destruct (tiles_matrix m). }
  destruct Hpair as [Hrow|Hcol].
  - specialize (Hmoves LEFT). unfold changes in Hmoves.
    rewrite move_detected_outcome in Hmoves.
    change (outcome LEFT (tiles_matrix m))
      with (Some (Spec.moveLeft (tiles_matrix m))) in Hmoves.
    apply bool_decide_eq_false_1 in Hmoves; [|unfold _valid_move; repeat constructor].
    apply Hmoves. cbn [commit tiles_matrix].
    exact (moveLeft_pair _ r c x Hfull Hc Hrow).
  - specialize (Hmoves UP). unfold changes in Hmoves.
    rewrite move_detected_outcome in Hmoves.
    change (outcome UP (tiles_matrix m))
      with (Some (Spec.moveUp (tiles_matrix m))) in Hmoves.
    apply bool_decide_eq_false_1 in Hmoves; [|unfold _valid_move; repeat constructor].
    apply Hmoves. cbn [commit tiles_matrix].
    exact (moveUp_pair _ r c x HG Hfull Hc Hcol).
Qed.

(** With an empty history a full grid is always reported lost. *)
Lemma has_lost_no_history m :
  _previous_info m = [] ->
  full (tiles_matrix m) -> (has_lost m).1 = true.
Proof.
  intros Hh Hfull. unfold has_lost.
  rewrite has_lost_rows_true. eapply Forall_impl; [exact Hfull|].
  intros row Hrow. split; [done|by apply any_check_no_history].
Qed.

End Loss.

(** ** Undo and the history bound *)

Section Undo.

Implicit Types (m : Model).

Lemma add_tile_frame pick four m m' :
  add_tile pick four m = Some m' ->
  _score m' = _score m /\ _undos m' = _undos m
  /\ _previous_info m' = _previous_info m.
Proof.
  unfold add_tile. destruct (generate_tile pick four (tiles_matrix m)) as [[pos v]|];
    [|done].
  by intros [= <-].
Qed.

Lemma new_game_frame d1 d2 m m' :
  new_game d1 d2 m = Some m' ->
  _score m' = _score m /\ _undos m' = _undos m
  /\ _previous_info m' = _previous_info m.
Proof.
  unfold new_game.
  destruct (add_tile d1.1 d1.2 (set_tiles blank_grid m)) as [m1|] eqn:H1; [|done].
  cbn [mbind option_bind]. intros H2.
  apply add_tile_frame in H1 as (?&?&?), H2 as (?&?&?). fields.
  repeat split; congruence.
Qed.

Lemma use_undo_pop m (h : list (Grid * Z)) g s :
  0 < _undos m -> _previous_info m = h ++ [(g, s)] ->
  use_undo m = mkModel g s (_undos m - 1) h.
Proof.
  intros Hu Hh. unfold use_undo. rewrite Hh, last_snoc, removelast_last.
  rewrite !bool_decide_eq_true_2; [done| |done].
  rewrite length_app. simpl. lia.
Qed.

Lemma use_undo_noop m :
  _undos m <= 0 \/ _previous_info m = [] -> use_undo m = m.
Proof.
  intros [Hu|Hh]; unfold use_undo.
  - rewrite (bool_decide_eq_false_2 (0 < _undos m)); [done|lia].
  - rewrite Hh. simpl. by rewrite andb_false_r.
Qed.

Lemma use_undo_bounded m : history_bounded m -> history_bounded (use_undo m).
Proof.
  unfold history_bounded. intros Hb.
  destruct (decide (0 < _undos m)) as [Hu|Hu];
    [|rewrite use_undo_noop; [done|lia]].
  destruct (_previous_info m) as [|a h] eqn:Hh using rev_ind;
    [rewrite use_undo_noop; [by rewrite Hh|by right]|].
  destruct a as [g s]. rewrite (use_undo_pop m h g s Hu Hh). simpl.
  rewrite length_app in Hb. simpl in Hb. lia.
Qed.

Lemma attempt_move_bounded move b m m' :
  attempt_move move m = Some (b, m') ->
  history_bounded m -> history_bounded m'.
Proof.
  rewrite attempt_move_eq. destruct (pushed m) as [h|] eqn:Hp; [|done].
  cbn [mbind option_bind]. unfold history_bounded.
  destruct (changes move m); intros [= <- <-] Hb; [|done].
  pose proof (pushed_length m h Hp). fields.
  rewrite move_detected_undos. lia.
Qed.

Lemma step_bounded m m' :
  step bounded_snapshot m m' -> history_bounded m -> history_bounded m'.
Proof.
  intros Hstep Hb. destruct Hstep as
    [d1 d2 m m' H|pick four m m' H|move b m m' H|m|m|tiles score undos h m H].
  - apply new_game_frame in H as (_&Hu&Hh). unfold history_bounded.
    by rewrite Hu, Hh.
  - apply add_tile_frame in H as (_&Hu&Hh). unfold history_bounded.
    by rewrite Hu, Hh.
  - by eapply attempt_move_bounded.
  - unfold has_lost. by rewrite has_lost_rows_state.
  - by apply use_undo_bounded.
  - exact H.
Qed.

Lemma init_bounded d1 d2 m : init d1 d2 = Some m -> history_bounded m.
Proof.
  unfold init. destruct (new_game d1 d2 _) as [m0|]; [|done].
  intros [= <-]. unfold history_bounded. simpl. lia.
Qed.

End Undo.

(** ** Adding tiles *)

Section Tiles.

Implicit Types (g : Grid) (row : list Tile) (m : Model).

Lemma empty_in_row_lookup i j0 row r c :
  (r, c) ∈ empty_in_row i j0 row ->
  r = i /\ exists k, c = (j0 + k)%nat /\ row !! k = Some None.
Proof.
  revert j0. induction row as [|t row IH]; intros j0 Hin.
  - by apply elem_of_nil in Hin.
  - destruct t as [x|]; simpl in Hin.
    + destruct (IH _ Hin) as [-> (k & -> & Hk)].
      split; [done|]. exists (S k). split; [lia|done].
    + apply elem_of_cons in Hin as [[= -> ->]|Hin].
      * split; [done|]. exists 0%nat. split; [lia|done].
      * destruct (IH _ Hin) as [-> (k & -> & Hk)].
        split; [done|]. exists (S k). split; [lia|done].
Qed.

Lemma empty_from_lookup i0 g r c :
  (r, c) ∈ empty_from i0 g ->
  exists k row, r = (i0 + k)%nat /\ g !! k = Some row /\ row !! c = Some None.
Proof.
  revert i0. induction g as [|row g IH]; intros i0 Hin.
  - by apply elem_of_nil in Hin.
  - simpl in Hin. apply elem_of_app in Hin as [Hin|Hin].
    + apply empty_in_row_lookup in Hin as [-> (k & -> & Hk)].
      exists 0%nat, row. split; [lia|]. by split.
    + destruct (IH _ Hin) as (k & row' & -> & Hrow & Hc).
      exists (S k), row'. split; [lia|]. by split.
Qed.

(** [generate_tile] answers with an empty cell of the grid and 2 or 4. *)
Lemma generate_tile_spec pick four g r c v :
  generate_tile pick four g = Some ((r, c), v) ->
  (exists row, g !! r = Some row /\ row !! c = Some None)
  /\ (v = 2 \/ v = 4).
Proof.
  unfold generate_tile, empty_positions.
  destruct (empty_from 0 g !! pick) as [[r' c']|] eqn:Hpick; [|done].
  cbn [mbind option_bind]. intros [= -> -> <-].
  apply list_elem_of_lookup_2, empty_from_lookup in Hpick
    as (k & row & -> & Hrow & Hc).
  split; [by exists row|]. destruct four; auto.
Qed.

Lemma values_insert_empty row c v :
  row !! c = Some None ->
  length (values (<[c := Some v]> row)) = S (length (values row)).
Proof.
  unfold values. revert c. induction row as [|t row IH]; intros c Hc; [done|].
  destruct c as [|c].
  - injection Hc as ->. reflexivity.
  - cbn in Hc. specialize (IH c Hc). destruct t; simpl; [f_equal|]; exact IH.
Qed.

Lemma filled_add g r c row v :
  g !! r = Some row -> row !! c = Some None ->
  filled (alter (fun row => <[c := Some v]> row) r g) = S (filled g).
Proof.
  revert r. induction g as [|row0 g IH]; intros r Hr Hc; [done|].
  destruct r as [|r].
  - injection Hr as ->. cbn [alter list_alter]. rewrite !filled_cons.
    by rewrite values_insert_empty.
  - cbn in Hr. cbn [alter list_alter]. rewrite !filled_cons.
    fold (alter (fun row => <[c := Some v]> row) r g).
    rewrite (IH r Hr Hc). lia.
Qed.

Lemma length_empty_in_row i j row :
  (length (empty_in_row i j row) + length (values row) = length row)%nat.
Proof.
  unfold values. revert j. induction row as [|[x|] row IH]; intros j; [done| |];
    specialize (IH (S j)); cbn in *; lia.
Qed.

Lemma length_empty_from i g :
  (length (empty_from i g) + filled g = cells g)%nat.
Proof.
  revert i. induction g as [|row g IH]; intros i; [done|].
  cbn [empty_from]. rewrite length_app, filled_cons.
  pose proof (length_empty_in_row i 0 row). specialize (IH (S i)).
  unfold cells in *. cbn. lia.
Qed.

Lemma is_grid_cells g : is_grid g -> cells g = (NUM_ROWS * NUM_COLS)%nat.
Proof.
  intros [Hn Hrows]. unfold cells. revert Hn. generalize NUM_ROWS.
  induction Hrows as [|row g Hrow _ IH]; intros n Hn.
  - by subst n.
  - destruct n as [|n]; [done|]. injection Hn as Hn.
    change (foldr Nat.add 0%nat (length <$> row :: g))
      with (length row + foldr Nat.add 0%nat (length <$> g))%nat.
    rewrite Hrow, (IH n Hn). lia.
Qed.

Lemma is_grid_add g r c v :
  is_grid g -> is_grid (alter (fun row => <[c := Some v]> row) r g).
Proof.
  intros [Hn Hrows]. split; [by rewrite length_alter|].
  apply Forall_alter; [done|]. intros row _ Hrow. by rewrite length_insert.
Qed.

(** [add_tile] writes a 2 or a 4 into one empty cell and nothing else. *)
Lemma add_tile_spec pick four m m' :
  add_tile pick four m = Some m' ->
  filled (tiles_matrix m') = S (filled (tiles_matrix m))
  /\ (Forall (Forall starter) (tiles_matrix m) ->
      Forall (Forall starter) (tiles_matrix m'))
  /\ (is_grid (tiles_matrix m) -> is_grid (tiles_matrix m')).
Proof.
  unfold add_tile.
  destruct (generate_tile pick four (tiles_matrix m)) as [[[r c] v]|] eqn:Hgen;
    [|done].
  cbn [mbind option_bind]. intros [= <-].
  apply generate_tile_spec in Hgen as [(row & Hr & Hc) Hv].
  unfold set_tiles. cbn [tiles_matrix fst snd].
  split; [by eapply filled_add|]. split.
  - intros Hall. apply Forall_alter; [done|]. intros row' _ Hrow'.
    apply Forall_insert; [done|]. unfold starter.
    destruct Hv as [->| ->]; auto.
  - apply is_grid_add.
Qed.

(** On a grid with an empty cell left, a draw within the number of empty
    cells gives a tile. *)
Lemma add_tile_total pick four m :
  is_grid (tiles_matrix m) ->
  (pick + filled (tiles_matrix m) < NUM_ROWS * NUM_COLS)%nat ->
  is_Some (add_tile pick four m).
Proof.
  intros Hg Hpick. unfold add_tile, generate_tile, empty_positions.
  pose proof (length_empty_from 0 (tiles_matrix m)) as Hlen.
  rewrite (is_grid_cells _ Hg) in Hlen.
  destruct (lookup_lt_is_Some_2 (empty_from 0 (tiles_matrix m)) pick) as [pos ->];
    [lia|].
  by eexists.
Qed.

Lemma is_grid_blank : is_grid blank_grid.
Proof. split; [done|]. repeat constructor. Qed.

(** [new_game] leaves exactly two tiles on the grid, each 2 or 4, and
    assigns no attribute but the grid. *)
Lemma new_game_spec d1 d2 m m' :
  new_game d1 d2 m = Some m' ->
  is_grid (tiles_matrix m')
  /\ filled (tiles_matrix m') = 2%nat
  /\ Forall (Forall starter) (tiles_matrix m')
  /\ _score m' = _score m /\ _undos m' = _undos m
  /\ _previous_info m' = _previous_info m.
Proof.
  intros Hnew. pose proof (new_game_frame _ _ _ _ Hnew) as Hframe.
  unfold new_game in Hnew.
  destruct (add_tile d1.1 d1.2 (set_tiles blank_grid m)) as [m1|] eqn:H1; [|done].
  cbn [mbind option_bind] in Hnew.
  apply add_tile_spec in H1 as (Hf1 & Hs1 & Hg1).
  apply add_tile_spec in Hnew as (Hf2 & Hs2 & Hg2).
  unfold set_tiles in *. cbn [tiles_matrix] in *.
  split; [apply Hg2, Hg1, is_grid_blank|].
  split; [by rewrite Hf2, Hf1|].
  split; [|done]. apply Hs2, Hs1. repeat constructor.
Qed.

(** Draws within the numbers of empty cells always start a game. *)
Lemma new_game_total d1 d2 m :
  (d1.1 < 16)%nat -> (d2.1 < 15)%nat -> is_Some (new_game d1 d2 m).
Proof.
  intros Hd1 Hd2. unfold new_game.
  destruct (add_tile_total d1.1 d1.2 (set_tiles blank_grid m)) as [m1 H1].
  { apply is_grid_blank. }
  { change (d1.1 + 0 < 16)%nat. lia. }
  rewrite H1. cbn [mbind option_bind].
  apply add_tile_spec in H1 as (Hf1 & _ & Hg1).
  apply add_tile_total; [apply Hg1, is_grid_blank|].
  rewrite Hf1. change (d2.1 + 1 < 16)%nat. lia.
Qed.

End Tiles.

(** ** Play from a new model *)

Section Play.

Implicit Types (m : Model).

Lemma reachable_play ok (actions : list action) m m' :
  reachable ok m -> play actions m = Some m' -> reachable ok m'.
Proof.
  revert m. induction actions as [|a actions IH]; intros m Hm Hplay.
  - injection Hplay as <-. exact Hm.
  - cbn [play] in Hplay. destruct (act a m) as [m1|] eqn:Hact; [|done].
    cbn [mbind option_bind] in Hplay. apply (IH m1); [|exact Hplay].
    eapply reach_step; [exact Hm|]. destruct a as [move|pick four|]; simpl in Hact.
    + destruct (attempt_move move m) as [[b m2]|] eqn:Hmove; [|done].
      injection Hact as <-. by eapply step_attempt_move.
    + by eapply step_add_tile.
    + injection Hact as <-. apply step_use_undo.
Qed.

Lemma reachable_opening ok : reachable ok opening.
Proof. by apply (reach_init ok (0%nat, false) (0%nat, false)). Qed.

Lemma reachable_first_move ok : reachable ok first_move.
Proof.
  apply (reachable_play ok [Key LEFT] opening); [apply reachable_opening|].
  vm_compute. reflexivity.
Qed.

Lemma reachable_scored ok : reachable ok scored.
Proof.
  apply (reachable_play ok [NewTile 0 false] first_move);
    [apply reachable_first_move|].
  vm_compute. reflexivity.
Qed.

Lemma reachable_third_move ok : reachable ok third_move.
Proof.
  apply (reachable_play ok
           [Key RIGHT; NewTile 0 false; Key LEFT; NewTile 0 false] scored);
    [apply reachable_scored|].
  vm_compute. reflexivity.
Qed.

Lemma reachable_fresh_full ok : reachable ok fresh_full.
Proof.
  apply (reachable_play ok (replicate 14 (NewTile 0 false)) opening);
    [apply reachable_opening|].
  vm_compute. reflexivity.
Qed.

End Play.

(** ** The properties *)

Section Properties.

Implicit Types (m : Model) (move : string).

(** C1. For every state and every direction key, if [attempt_move] returns
    [False] then the grid, the score, the undo history and the undo
    credits are exactly as before the call. *)
Theorem attempt_move_false_no_effect move m m' :
  move ∈ _valid_move ->
  attempt_move move m = Some (false, m') ->
  tiles_matrix m' = tiles_matrix m /\ _score m' = _score m
  /\ _previous_info m' = _previous_info m /\ _undos m' = _undos m.
Proof.
  intros _ Hret. by rewrite (attempt_move_rejected move m m' Hret).
Qed.

(** A move to the left that the game one move old rejects. *)
Lemma attempt_move_false_no_effect_witness :
  LEFT ∈ _valid_move
  /\ attempt_move LEFT first_move = Some (false, first_move)
  /\ _score first_move = 4.
Proof.
  assert (LEFT ∈ _valid_move) as Hin by (unfold _valid_move; repeat constructor).
  assert (attempt_move LEFT first_move = Some (false, first_move)) as Hret
    by (vm_compute; reflexivity).
  split; [exact Hin|]. split; [exact Hret|].
  exact (proj1 (proj2 (attempt_move_false_no_effect LEFT _ _ Hin Hret))).
Defined.

(** C2. What the code does on a full grid of 2s in a model with an empty
    history, a state fourteen calls of [add_tile] after construction: every
    cell is taken, any two neighbours are equal and a move to the left
    changes the grid, yet [has_lost] answers [True]. *)
Theorem has_lost_without_history :
  reachable bounded_snapshot fresh_full
  /\ full (tiles_matrix fresh_full)
  /\ cell (tiles_matrix fresh_full) 0 0 = cell (tiles_matrix fresh_full) 0 1
  /\ changes LEFT fresh_full = true
  /\ (has_lost fresh_full).1 = true.
Proof.
  split; [apply reachable_fresh_full|].
  split; [|by vm_compute].
  repeat constructor; intros Hin;
    repeat (apply elem_of_cons in Hin as [Hin|Hin]; [discriminate Hin|]);
    by apply elem_of_nil in Hin.
Qed.

(** C3. Merging is a single pass that does not cascade: a leftward move
    turns a row [2,2,2,2] into [4,4,_,_], wherever the row sits in the
    grid, and that row adds exactly 8 to the score. *)
Theorem move_left_no_cascade (above below : Grid) (score undos : Z)
    (previous_info : list (Grid * Z)) :
  Spec.mergeRow row_2222 = (row_44, 8)
  /\ move_left (mkModel (above ++ row_2222 :: below) score undos previous_info) =
     mkModel ((Spec.moveLeft above).1 ++ row_44 :: (Spec.moveLeft below).1)
             (score + ((Spec.moveLeft above).2 + (8 + (Spec.moveLeft below).2)))
             undos previous_info
  /\ move_left (mkModel [row_2222; blank_row; blank_row; blank_row]
                        score undos previous_info) =
     mkModel [row_44; blank_row; blank_row; blank_row] (score + 8)
             undos previous_info.
Proof.
  split; [reflexivity|]. split; [|reflexivity].
  rewrite move_left_commit. unfold commit. cbn [tiles_matrix _score _undos _previous_info].
  rewrite moveLeft_app, moveLeft_cons. reflexivity.
Qed.

(** C4. Directional symmetry: the grid and the score delta of [move_right]
    are those of the leftward move conjugated by row reversal, those of
    [move_up] the leftward move conjugated by transposition, and those of
    [move_down] the rightward move conjugated by transposition. *)
Theorem moves_are_conjugates m :
  let G := tiles_matrix m in
  (tiles_matrix (move_left m) = (Spec.moveLeft G).1
   /\ _score (move_left m) = _score m + (Spec.moveLeft G).2)
  /\ (tiles_matrix (move_right m) =
        Spec.reverseRows (Spec.moveLeft (Spec.reverseRows G)).1
      /\ _score (move_right m) =
         _score m + (Spec.moveLeft (Spec.reverseRows G)).2)
  /\ (tiles_matrix (move_up m) = transpose (Spec.moveLeft (transpose G)).1
      /\ _score (move_up m) = _score m + (Spec.moveLeft (transpose G)).2)
  /\ (tiles_matrix (move_down m) = transpose (Spec.moveRight (transpose G)).1
      /\ _score (move_down m) = _score m + (Spec.moveRight (transpose G)).2).
Proof.
  intros G. subst G.
  rewrite move_left_commit, move_right_commit, move_up_commit, move_down_commit.
  unfold commit, Spec.moveDown, Spec.moveUp, Spec.moveRight.
  cbn [tiles_matrix _score].
  repeat split;
    repeat match goal with
           | |- context [Spec.moveLeft ?g] => destruct (Spec.moveLeft g)
           end; reflexivity.
Qed.

(** C5 as stated fails: loading a snapshot with two history entries and no
    undo credit gives a reachable state outside the bound. *)
Lemma history_unbounded_after_loading :
  reachable any_snapshot overfull /\ ~ history_bounded overfull.
Proof.
  split.
  - eapply reach_step; [apply reachable_opening|]. by apply step_loading.
  - unfold history_bounded. simpl. lia.
Qed.

(** C5. In every state reached from a new model by [new_game],
    [add_tile], [attempt_move], [has_lost], [use_undo] and by [loading]
    snapshots that are themselves within the bound, the history holds at
    most [_undos + 1] snapshots. *)
Theorem history_bounded_reachable m :
  reachable bounded_snapshot m -> history_bounded m.
Proof.
  induction 1 as [d1 d2 m Hinit|m m' _ IH Hstep].
  - by eapply init_bounded.
  - by eapply step_bounded.
Qed.

(** The game one move old is reachable and within the bound. *)
Lemma history_bounded_reachable_witness :
  reachable bounded_snapshot first_move /\ history_bounded first_move.
Proof.
  split; [apply reachable_first_move|].
  exact (history_bounded_reachable first_move
           (reachable_first_move bounded_snapshot)).
Defined.

(** C6 as stated fails: three moves into a game, with three undo credits
    and three snapshots, a committed move leaves four snapshots in the
    history. *)
Lemma attempt_move_history_exceeds_undos :
  reachable bounded_snapshot third_move
  /\ exists m', attempt_move LEFT third_move = Some (true, m')
                /\ _undos m' < Z.of_nat (length (_previous_info m')).
Proof.
  split; [apply reachable_third_move|].
  eexists. split; [by vm_compute|]. simpl. lia.
Qed.

(** C6. When [attempt_move] commits a move (returns [True]) it drops the
    oldest snapshot if the history holds more than [_undos] entries,
    pushes the grid and score from before the move, applies the new grid
    and adds the score delta of the move; a history of at most
    [_undos + 1] snapshots stays within that bound. *)
Theorem attempt_move_commits move m m' :
  attempt_move move m = Some (true, m') ->
  exists r,
    outcome move (tiles_matrix m) = Some r
    /\ m' = mkModel r.1 (_score m + r.2) (_undos m)
              ((if bool_decide (_undos m < Z.of_nat (length (_previous_info m)))
                then drop 1 (_previous_info m) else _previous_info m)
               ++ [(tiles_matrix m, _score m)])
    /\ (history_bounded m -> history_bounded m').
Proof.
  intros Hret. pose proof (attempt_move_bounded _ _ _ _ Hret) as Hb.
  rewrite attempt_move_eq in Hret.
  destruct (pushed m) as [h|] eqn:Hp; [|done].
  cbn [mbind option_bind] in Hret. unfold changes in Hret.
  case_bool_decide as Hch; [|done]. injection Hret as <-.
  rewrite move_detected_outcome in Hch, Hb |- *.
  destruct (outcome move (tiles_matrix m)) as [r|]; [|done].
  exists r. split; [done|]. split; [|exact Hb].
  unfold set_previous_info, commit. cbn [tiles_matrix _score _undos].
  f_equal. unfold pushed in Hp. case_bool_decide.
  - destruct (_previous_info m); [done|]. by injection Hp as <-.
  - by injection Hp as <-.
Qed.

(** The first move of the opening is committed. *)
Lemma attempt_move_commits_witness :
  attempt_move LEFT opening = Some (true, first_move)
  /\ exists r, outcome LEFT (tiles_matrix opening) = Some r
               /\ tiles_matrix first_move = r.1.
Proof.
  assert (attempt_move LEFT opening = Some (true, first_move)) as Hret
    by (vm_compute; reflexivity).
  split; [exact Hret|].
  destruct (attempt_move_commits LEFT opening first_move Hret)
    as (r & Hr & Hm & _).
  exists r. split; [exact Hr|]. by rewrite Hm.
Defined.

(** C7. With undo credits left and a snapshot in the history, [use_undo]
    takes one credit, removes the most recent snapshot and restores the
    grid and score from it; in every other case it changes nothing. *)
Theorem use_undo_spec m :
  (0 < _undos m -> _previous_info m <> [] ->
   exists h g s,
     _previous_info m = h ++ [(g, s)]
     /\ use_undo m = mkModel g s (_undos m - 1) h)
  /\ (_undos m <= 0 \/ _previous_info m = [] -> use_undo m = m).
Proof.
  split; [|apply use_undo_noop].
  intros Hu Hh. destruct (_previous_info m) as [|[g s] h _] eqn:Heq using rev_ind;
    [done|].
  exists h, g, s. split; [done|]. by apply use_undo_pop.
Qed.

(** An undo that restores the opening, and two that do nothing: no credit
    left, and no snapshot. *)
Lemma use_undo_spec_witness :
  (exists h g s,
      _previous_info first_move = h ++ [(g, s)]
      /\ use_undo first_move = mkModel g s (_undos first_move - 1) h)
  /\ use_undo overfull = overfull
  /\ use_undo opening = opening.
Proof.
  split; [|split].
  - apply (proj1 (use_undo_spec first_move)); [reflexivity|discriminate].
  - apply (proj2 (use_undo_spec overfull)). left. simpl. lia.
  - apply (proj2 (use_undo_spec opening)). right. reflexivity.
Defined.

(** C8. What the code does when [new_game] is called on a game in progress
    with score 4: two starter tiles are on the new grid, and the score is
    still 4. *)
Theorem new_game_keeps_score :
  reachable bounded_snapshot scored
  /\ exists m',
       new_game (0%nat, false) (0%nat, false) scored = Some m'
       /\ filled (tiles_matrix m') = 2%nat
       /\ Forall (Forall starter) (tiles_matrix m')
       /\ _score m' = 4.
Proof.
  split; [apply reachable_scored|].
  destruct (new_game_total (0%nat, false) (0%nat, false) scored) as [m' Hnew];
    [simpl; lia..|].
  exists m'. split; [exact Hnew|].
  apply new_game_spec in Hnew as (_ & Hfilled & Hstarter & Hscore & _).
  by rewrite Hscore.
Qed.

(** C9. [has_lost] leaves the observable state unchanged: after the call
    the grid is equal in value to the grid before it, and the score, the
    undo credits and the history are what they were. *)
Theorem has_lost_no_effect m :
  tiles_matrix (has_lost m).2 = tiles_matrix m
  /\ _score (has_lost m).2 = _score m
  /\ _undos (has_lost m).2 = _undos m
  /\ _previous_info (has_lost m).2 = _previous_info m.
Proof. unfold has_lost. by rewrite has_lost_rows_state. Qed.

(** C10. For every state with undo credits that are not negative and every
    key that is none of w, a, s, d, [attempt_move] returns [False] and
    leaves grid, score, undo credits and history unchanged. *)
Theorem attempt_move_invalid_key move m :
  move ∉ _valid_move -> 0 <= _undos m ->
  attempt_move move m = Some (false, m).
Proof.
  intros Hkey Hu. rewrite attempt_move_eq.
  destruct (pushed_is_Some m Hu) as [h ->]. cbn [mbind option_bind].
  by rewrite changes_invalid.
Qed.

(** The key x in a game in progress. *)
Lemma attempt_move_invalid_key_witness :
  ("x" ∉ _valid_move)
  /\ 0 <= _undos scored
  /\ attempt_move "x" scored = Some (false, scored).
Proof.
  assert ("x" ∉ _valid_move) as Hkey.
  { unfold _valid_move. intros Hin.
    repeat (apply elem_of_cons in Hin as [Hin|Hin]; [discriminate Hin|]).
    by apply elem_of_nil in Hin. }
  assert (0 <= _undos scored) as Hu by (simpl; lia).
  split; [exact Hkey|]. split; [exact Hu|].
  exact (attempt_move_invalid_key "x" scored Hkey Hu).
Defined.

End Properties.

(** ** Further properties of the model *)

Section Probing.

Implicit Types (m : Model) (move : string).

Lemma pushed_None m :
  pushed m = None <-> _undos m < 0 /\ _previous_info m = [].
Proof.
  unfold pushed. case_bool_decide as Hlen.
  - destruct (_previous_info m) as [|a h]; simpl in *.
    + split; [intros _; split; [lia|done]|done].
    + split; [done|]. by intros [_ ?].
  - split; [done|]. intros [Hu Hh]. rewrite Hh in Hlen. simpl in Hlen. lia.
Qed.

Lemma pushed_last m h :
  pushed m = Some h ->
  h = (if bool_decide (_undos m < Z.of_nat (length (_previous_info m)))
       then drop 1 (_previous_info m) else _previous_info m)
      ++ [(tiles_matrix m, _score m)].
Proof.
  unfold pushed. case_bool_decide.
  - destruct (_previous_info m); [done|]. by intros [= <-].
  - by intros [= <-].
Qed.

Lemma attempt_move_undos move b m m' :
  attempt_move move m = Some (b, m') -> _undos m' = _undos m.
Proof.
  rewrite attempt_move_eq. destruct (pushed m) as [h|]; [|done].
  cbn [mbind option_bind]. destruct (changes move m); intros [= <- <-]; [|done].
  cbn [set_previous_info _undos]. apply move_detected_undos.
Qed.

(** X1. [move_check] answers [True] or [False] according to whether the
    move changes the grid when the history holds a snapshot, and [None]
    when it holds none; in every case the model it leaves is the model it
    was given. *)
Theorem move_check_answer move m :
  move_check move m =
  (if bool_decide (_previous_info m <> []) then Some (changes move m) else None,
   m).
Proof.
  pose proof (move_check_result move m) as Hres.
  pose proof (move_check_state move m) as Hst.
  destruct (move_check move m) as [r m1]. cbn [fst snd] in *. by subst.
Qed.

(** X2. [attempt_move] raises (its [pop(0)] on an empty list) exactly when
    the undo credits are negative and the history is empty. *)
Theorem attempt_move_raises move m :
  attempt_move move m = None <-> _undos m < 0 /\ _previous_info m = [].
Proof.
  rewrite attempt_move_eq, <- pushed_None.
  destruct (pushed m) as [h|]; cbn [mbind option_bind]; by split.
Qed.

(** X3. Whatever [attempt_move] returns, it returns [True] exactly when
    the move changes the grid, and the undo credits are what they were. *)
Theorem attempt_move_answer move b m m' :
  attempt_move move m = Some (b, m') ->
  b = changes move m /\ _undos m' = _undos m.
Proof.
  intros Hret. split; [|by eapply attempt_move_undos].
  rewrite attempt_move_eq in Hret. destruct (pushed m) as [h|]; [|done].
  cbn [mbind option_bind] in Hret. by destruct (changes move m); injection Hret.
Qed.

(** The move to the right of the opening is committed. *)
Lemma attempt_move_answer_witness :
  exists m', attempt_move RIGHT opening = Some (true, m')
             /\ true = changes RIGHT opening.
Proof.
  eexists. split; [vm_compute; reflexivity|].
  refine (proj1 (attempt_move_answer RIGHT true opening _ _)).
  vm_compute. reflexivity.
Defined.

(** X4. Undoing a committed move: with an undo credit left, [use_undo]
    right after a committed [attempt_move] gives back the grid and the
    score from before the move, takes one credit, and leaves the history
    as it was but for the oldest snapshot, dropped if the history was
    longer than the credits. *)
Theorem move_then_undo move m m' :
  attempt_move move m = Some (true, m') -> 0 < _undos m ->
  use_undo m' =
  mkModel (tiles_matrix m) (_score m) (_undos m - 1)
          (if bool_decide (_undos m < Z.of_nat (length (_previous_info m)))
           then drop 1 (_previous_info m) else _previous_info m).
Proof.
  intros Hret Hu. pose proof (attempt_move_undos _ _ _ _ Hret) as Hundos.
  rewrite attempt_move_eq in Hret. destruct (pushed m) as [h|] eqn:Hp; [|done].
  cbn [mbind option_bind] in Hret. destruct (changes move m); [|done].
  injection Hret as <-. apply pushed_last in Hp.
  set (h0 := if bool_decide (_undos m < Z.of_nat (length (_previous_info m)))
             then drop 1 (_previous_info m) else _previous_info m) in *.
  rewrite (use_undo_pop _ h0 (tiles_matrix m) (_score m)).
  - by rewrite Hundos.
  - by rewrite Hundos.
  - cbn [set_previous_info _previous_info]. exact Hp.
Qed.

(** The first move of the opening, undone. *)
Lemma move_then_undo_witness :
  attempt_move LEFT opening = Some (true, first_move)
  /\ 0 < _undos opening
  /\ use_undo first_move = mkModel (tiles_matrix opening) 0 2 [].
Proof.
  assert (attempt_move LEFT opening = Some (true, first_move)) as Hret
    by (vm_compute; reflexivity).
  assert (0 < _undos opening) as Hu by (simpl; lia).
  split; [exact Hret|]. split; [exact Hu|].
  exact (move_then_undo LEFT opening first_move Hret Hu).
Defined.

Lemma use_undo_cases m :
  use_undo m = m
  \/ (0 < _undos m
      /\ _undos (use_undo m) = _undos m - 1
      /\ S (length (_previous_info (use_undo m))) = length (_previous_info m)).
Proof.
  destruct (decide (0 < _undos m)) as [Hu|Hu];
    [|left; apply use_undo_noop; lia].
  destruct (_previous_info m) as [|[g s] h _] eqn:Hh using rev_ind;
    [left; apply use_undo_noop; by right|].
  right. rewrite (use_undo_pop m h g s Hu Hh). cbn [_undos _previous_info].
  rewrite length_app. simpl. split; [done|]. split; [done|lia].
Qed.

(** X5. [use_undo] takes a credit only together with a snapshot: the
    credits never grow and never become negative, and the credits and the
    length of the history fall by the same amount. *)
Theorem use_undo_credits m :
  _undos (use_undo m) <= _undos m
  /\ (0 <= _undos m -> 0 <= _undos (use_undo m))
  /\ _undos m - _undos (use_undo m) =
     Z.of_nat (length (_previous_info m))
     - Z.of_nat (length (_previous_info (use_undo m))).
Proof.
  destruct (use_undo_cases m) as [->|(Hu & Hundos & Hlen)]; [lia|].
  rewrite Hundos. lia.
Qed.

Lemma use_undo_iter m (k : nat) :
  use_undo (Nat.iter k use_undo m) = Nat.iter k use_undo m
  \/ _undos (Nat.iter k use_undo m) <= _undos m - Z.of_nat k.
Proof.
  induction k as [|k IH]; [right; simpl; lia|].
  rewrite !Nat.iter_succ. destruct IH as [Hfix|Hle]; [left; by rewrite !Hfix|].
  destruct (use_undo_cases (Nat.iter k use_undo m)) as [Hfix|(_ & Hundos & _)];
    [left; by rewrite !Hfix|].
  right. rewrite Hundos. lia.
Qed.

(** X6. The undo credits run out: once [use_undo] has been called as many
    times as there were credits, calling it again changes nothing. *)
Theorem use_undo_exhausted m (k : nat) :
  _undos m <= Z.of_nat k ->
  use_undo (Nat.iter k use_undo m) = Nat.iter k use_undo m.
Proof.
  intros Hk. destruct (use_undo_iter m k) as [Hfix|Hle]; [done|].
  apply use_undo_noop. left. lia.
Qed.

(** Three undos use up the credits of the game one move old. *)
Lemma use_undo_exhausted_witness :
  _undos first_move <= Z.of_nat 3
  /\ use_undo (Nat.iter 3 use_undo first_move) = Nat.iter 3 use_undo first_move.
Proof.
  assert (_undos first_move <= Z.of_nat 3) as Hk by (simpl; lia).
  split; [exact Hk|]. exact (use_undo_exhausted first_move 3 Hk).
Defined.

End Probing.

Section Games.

Implicit Types (m : Model) (move : string) (g : Grid).

Lemma cell_Some g r c v :
  cell g r c = Some v <->
  exists row : list Tile, g !! r = Some row /\ row !! c = Some (Some v).
Proof.
  split; [apply cell_lookup|]. intros (row & Hrow & Hc).
  unfold cell. by rewrite Hrow, Hc.
Qed.

(** X7. [has_won] answers [True] exactly when some cell of the grid holds
    2048; larger tiles do not count. *)
Theorem has_won_iff m :
  has_won m = true <-> exists r c, cell (tiles_matrix m) r c = Some 2048.
Proof.
  unfold has_won. rewrite existsb_exists. split.
  - intros (row & Hin & Hrow). apply bool_decide_eq_true_1 in Hrow.
    apply list_elem_of_In, list_elem_of_lookup in Hin as [r Hr].
    apply list_elem_of_lookup in Hrow as [c Hc].
    exists r, c. apply cell_Some. by exists row.
  - intros (r & c & Hcell). apply cell_Some in Hcell as (row & Hr & Hc).
    exists row. split.
    + by eapply list_elem_of_In, list_elem_of_lookup_2.
    + apply bool_decide_eq_true_2. by eapply list_elem_of_lookup_2.
Qed.

Lemma step_credits m m' :
  step credits_in_range m m' -> 0 <= _undos m <= 3 -> 0 <= _undos m' <= 3.
Proof.
  intros Hstep Hb. destruct Hstep as
    [d1 d2 m m' H|pick four m m' H|move b m m' H|m|m|tiles score undos h m H].
  - apply new_game_frame in H as (_ & -> & _). done.
  - apply add_tile_frame in H as (_ & -> & _). done.
  - apply attempt_move_undos in H as ->. done.
  - unfold has_lost. by rewrite has_lost_rows_state.
  - destruct (use_undo_cases m) as [->|(? & -> & _)]; lia.
  - exact H.
Qed.

(** X8. During play the undo credits stay between 0 and 3, as long as the
    snapshots that are loaded have them in that range; in every such state
    [attempt_move] returns, whatever the key. *)
Theorem credits_stay_in_range m :
  reachable credits_in_range m ->
  0 <= _undos m <= 3 /\ forall move, is_Some (attempt_move move m).
Proof.
  intros Hreach.
  assert (0 <= _undos m <= 3) as Hb.
  { induction Hreach as [d1 d2 m Hinit|m m' _ IH Hstep].
    - unfold init in Hinit. destruct (new_game d1 d2 _); [|done].
      injection Hinit as <-. simpl. lia.
    - by eapply step_credits. }
  split; [exact Hb|]. intros move.
  rewrite attempt_move_eq.
  destruct (pushed m) as [h|] eqn:Hp; [by eexists|].
  apply pushed_None in Hp as [Hneg _]. lia.
Qed.

(** Three moves into a game any key gets an answer. *)
Lemma credits_stay_in_range_witness :
  reachable credits_in_range third_move
  /\ is_Some (attempt_move UP third_move).
Proof.
  split; [apply reachable_third_move|].
  exact (proj2 (credits_stay_in_range third_move
                  (reachable_third_move credits_in_range)) UP).
Defined.

(** X9. A new model: whatever cells and values are drawn, [Model()] has
    score 0, three undo credits, an empty history and a 4x4 grid with
    exactly two tiles, each 2 or 4. *)
Theorem init_fresh (d1 d2 : nat * bool) :
  (d1.1 < 16)%nat -> (d2.1 < 15)%nat ->
  exists m,
    init d1 d2 = Some m
    /\ _score m = 0 /\ _undos m = 3 /\ _previous_info m = []
    /\ is_grid (tiles_matrix m)
    /\ filled (tiles_matrix m) = 2%nat
    /\ Forall (Forall starter) (tiles_matrix m).
Proof.
  intros Hd1 Hd2. unfold init.
  destruct (new_game_total d1 d2 (mkModel [] 0 0 []) Hd1 Hd2) as [m0 Hnew].
  rewrite Hnew. cbn [mbind option_bind]. eexists. split; [reflexivity|].
  apply new_game_spec in Hnew as (Hg & Hf & Hs & _). by cbn [tiles_matrix].
Qed.

(** The draws of the last cell and of the first, one 4 and one 2. *)
Lemma init_fresh_witness :
  (15 < 16)%nat /\ (0 < 15)%nat
  /\ exists m, init (15%nat, true) (0%nat, false) = Some m /\ _undos m = 3.
Proof.
  assert (15 < 16)%nat as H1 by lia. assert (0 < 15)%nat as H2 by lia.
  split; [exact H1|]. split; [exact H2|].
  destruct (init_fresh (15%nat, true) (0%nat, false) H1 H2)
    as (m & Hm & _ & Hu & _).
  by exists m.
Defined.

(** X10. [add_tile] writes a 2 or a 4 into one cell that was empty and
    leaves every other cell, the score, the undo credits and the history
    as they were. *)
Theorem add_tile_one_cell pick four m m' :
  add_tile pick four m = Some m' ->
  exists r c v,
    cell (tiles_matrix m) r c = None
    /\ cell (tiles_matrix m') r c = Some v /\ (v = 2 \/ v = 4)
    /\ (forall r' c', (r', c') <> (r, c) ->
          cell (tiles_matrix m') r' c' = cell (tiles_matrix m) r' c')
    /\ _score m' = _score m /\ _undos m' = _undos m
    /\ _previous_info m' = _previous_info m.
Proof.
  intros Hadd. pose proof (add_tile_frame _ _ _ _ Hadd) as Hframe.
  unfold add_tile in Hadd.
  destruct (generate_tile pick four (tiles_matrix m)) as [[[r c] v]|] eqn:Hgen;
    [|done].
  cbn [mbind option_bind] in Hadd. injection Hadd as <-.
  apply generate_tile_spec in Hgen as [(row & Hr & Hc) Hv].
  exists r, c, v. unfold set_tiles. cbn [tiles_matrix fst snd].
  split; [unfold cell; by rewrite Hr, Hc|].
  split.
  { unfold cell. rewrite list_lookup_alter_eq, Hr. cbn.
    rewrite list_lookup_insert_eq; [done|]. by eapply lookup_lt_Some. }
  split; [exact Hv|]. split; [|exact Hframe].
  intros r' c' Hne. unfold cell.
  destruct (decide (r' = r)) as [->|Hr'].
  - rewrite list_lookup_alter_eq, Hr. cbn.
    rewrite list_lookup_insert_ne; [done|]. congruence.
  - by rewrite list_lookup_alter_ne.
Qed.

(** The new tile of the game one move old. *)
Lemma add_tile_one_cell_witness :
  add_tile 0 false first_move = Some scored
  /\ exists r c v, cell (tiles_matrix first_move) r c = None
                   /\ cell (tiles_matrix scored) r c = Some v.
Proof.
  assert (add_tile 0 false first_move = Some scored) as Hadd
    by (vm_compute; reflexivity).
  split; [exact Hadd|].
  destruct (add_tile_one_cell 0 false first_move scored Hadd)
    as (r & c & v & Hnone & Hsome & _).
  by exists r, c, v.
Defined.

(** X11. [new_game] keeps the history and the undo credits of the game it
    replaces: an undo right after it brings back the grid and the score of
    the last snapshot of the old game. *)
Theorem new_game_then_undo (d1 d2 : nat * bool) m m'
    (h : list (Grid * Z)) g s :
  new_game d1 d2 m = Some m' ->
  0 < _undos m -> _previous_info m = h ++ [(g, s)] ->
  use_undo m' = mkModel g s (_undos m - 1) h.
Proof.
  intros Hnew Hu Hh. apply new_game_frame in Hnew as (_ & Hundos & Hhist).
  rewrite <- Hundos. apply use_undo_pop; congruence.
Qed.

(** The opening comes back after a new game is started one move in. *)
Lemma new_game_then_undo_witness :
  exists m',
    new_game (5%nat, false) (5%nat, true) first_move = Some m'
    /\ use_undo m' = mkModel (tiles_matrix opening) 0 2 [].
Proof.
  eexists. split; [vm_compute; reflexivity|].
  apply (new_game_then_undo (5%nat, false) (5%nat, true) first_move _
           [] (tiles_matrix opening) 0);
    [vm_compute; reflexivity|simpl; lia|reflexivity].
Defined.



End Games.

(** ** The file type test of [load_game] *)

Section Files.

Implicit Types (s name : string) (sep : ascii).

Lemma str_split_nonempty sep s : str_split sep s <> [].
Proof.
  destruct s as [|c s]; [done|]. cbn [str_split].
  case_bool_decide; [done|]. by destruct (str_split sep s).
Qed.

Lemma str_join_cons sep (piece : string) (pieces : list string) :
  pieces <> [] ->
  str_join sep (piece :: pieces) =
  String.append piece (String sep (str_join sep pieces)).
Proof. by destruct pieces. Qed.

(** Joining the pieces of a split gives the string back. *)
Lemma str_join_split sep s : str_join sep (str_split sep s) = s.
Proof.
  induction s as [|c s IH]; [done|]. cbn [str_split]. case_bool_decide as Hc.
  - subst c. rewrite str_join_cons by apply str_split_nonempty.
    by rewrite IH.
  - destruct (str_split sep s) as [|piece pieces] eqn:Hsplit.
    + by destruct (str_split_nonempty sep s).
    + rewrite <- IH. by destruct pieces.
Qed.

Lemma str_append_cons (x : ascii) (a b : string) :
  String.append (String x a) b = String x (String.append a b).
Proof. reflexivity. Qed.

Lemma str_append_assoc (a b c : string) :
  String.append (String.append a b) c = String.append a (String.append b c).
Proof.
  induction a as [|x a IH]; [done|]. by rewrite !str_append_cons, IH.
Qed.

Lemma str_join_snoc sep (pieces : list string) (piece : string) :
  pieces <> [] ->
  str_join sep (pieces ++ [piece]) =
  String.append (str_join sep pieces) (String sep piece).
Proof.
  induction pieces as [|p pieces IH]; [done|]. intros _.
  destruct pieces as [|p' pieces]; [done|].
  rewrite <- app_comm_cons, !str_join_cons by done.
  rewrite IH by done. by rewrite str_append_assoc.
Qed.

(** The pieces of a string with a separator in it are the pieces before
    the separator followed by the pieces after it. *)
Lemma str_split_app sep (p e : string) :
  str_split sep (String.append p (String sep e)) =
  str_split sep p ++ str_split sep e.
Proof.
  induction p as [|c p IH].
  - change (String.append "" (String sep e)) with (String sep e).
    cbn [str_split app]. by rewrite bool_decide_eq_true_2.
  - rewrite str_append_cons. cbn [str_split].
    case_bool_decide; [by rewrite IH|]. rewrite IH.
    destruct (str_split sep p) as [|piece pieces] eqn:Hsplit; [|done].
    by destruct (str_split_nonempty sep p).
Qed.

(** X13. The file type test of [load_game] passes exactly for the name
    "save" and for the names that end in ".save": what counts is the text
    after the last dot of the whole path, and a name without any dot is
    its own extension. *)
Theorem correct_file_type_iff name :
  correct_file_type name = true <->
  name = "save" \/ exists p : string, name = String.append p ".save".
Proof.
  unfold correct_file_type, extension. rewrite bool_decide_eq_true. split.
  - intros Hext. pose proof (str_join_split "." name) as Hjoin.
    destruct (last (str_split "." name)) as [e|] eqn:Hlast;
      [|by destruct (str_split_nonempty "." name); apply last_None].
    cbn in Hext. subst e. apply last_Some in Hlast as [pieces Hsplit].
    rewrite Hsplit in Hjoin. destruct pieces as [|p pieces]; [by left|].
    right. rewrite str_join_snoc in Hjoin by done. by eexists.
  - intros [->|[p ->]]; [done|].
    rewrite (str_split_app "." p "save").
    change (str_split "." "save") with ["save"]. by rewrite last_snoc.
Qed.

End Files.

(** ** The boxes of the view *)

Section Boxes.

Import GameGrid.

Implicit Types (position : Z * Z).

(** The four rows and the four columns, one by one. *)
Lemma on_grid_cases position :
  on_grid position ->
  (position.1 = 0 \/ position.1 = 1 \/ position.1 = 2 \/ position.1 = 3)
  /\ (position.2 = 0 \/ position.2 = 1 \/ position.2 = 2 \/ position.2 = 3).
Proof. unfold on_grid, NUM_ROWS, NUM_COLS. lia. Qed.

(** X14. The box of every cell of the grid lies on the 400 by 400 canvas,
    at least the buffer away from its edges, and is a square of side
    [box_side], 87.5. *)
Theorem bbox_on_canvas position :
  on_grid position ->
  let '(x_min, y_min, x_max, y_max) := _get_bbox position in
  (inject_Z BUFFER <= x_min /\ x_max <= inject_Z (BOARD_WIDTH - BUFFER)
   /\ inject_Z BUFFER <= y_min /\ y_max <= inject_Z (BOARD_WIDTH - BUFFER)
   /\ x_max - x_min == box_side /\ y_max - y_min == box_side
   /\ box_side == 87.5)%Q.
Proof.
  intros Hon. destruct position as [row col].
  destruct (on_grid_cases _ Hon) as [Hrow Hcol]. cbn [fst snd] in *.
  destruct Hrow as [->|[->|[->| ->]]], Hcol as [->|[->|[->| ->]]];
    vm_compute; repeat split; discriminate.
Qed.

(** The box of the last cell ends ten pixels from the edge. *)
Lemma bbox_on_canvas_witness :
  on_grid (3, 3) /\ ((_get_bbox (3%Z, 3%Z)).1.2 <= 390)%Q.
Proof.
  assert (on_grid (3, 3)) as Hon by (unfold on_grid, NUM_ROWS, NUM_COLS; simpl; lia).
  split; [exact Hon|].
  exact (proj1 (proj2 (bbox_on_canvas (3, 3) Hon))).
Defined.

(** X15. Boxes do not touch: the box of a cell further right starts at
    least the buffer after the box of a cell further left ends, and
    likewise from one row to a row below it. *)
Theorem bboxes_apart position position' :
  on_grid position -> on_grid position' ->
  let '(x_min, y_min, x_max, y_max) := _get_bbox position in
  let '(x_min', y_min', x_max', y_max') := _get_bbox position' in
  (position.2 < position'.2 -> (x_max + inject_Z BUFFER <= x_min')%Q)
  /\ (position.1 < position'.1 -> (y_max + inject_Z BUFFER <= y_min')%Q).
Proof.
  intros Hon Hon'. destruct position as [row col], position' as [row' col'].
  destruct (on_grid_cases _ Hon) as [Hrow Hcol].
  destruct (on_grid_cases _ Hon') as [Hrow' Hcol']. cbn [fst snd] in *.
  unfold _get_bbox. split; intros Hlt.
  - clear Hrow Hrow'.
    destruct Hcol as [->|[->|[->| ->]]], Hcol' as [->|[->|[->| ->]]];
      try lia; vm_compute; discriminate.
  - clear Hcol Hcol'.
    destruct Hrow as [->|[->|[->| ->]]], Hrow' as [->|[->|[->| ->]]];
      try lia; vm_compute; discriminate.
Qed.

(** The first two boxes of the top row are ten pixels apart. *)
Lemma bboxes_apart_witness :
  on_grid (0, 0) /\ on_grid (0, 1)
  /\ ((_get_bbox (0%Z, 0%Z)).1.2 + inject_Z BUFFER
      <= (_get_bbox (0%Z, 1%Z)).1.1.1)%Q.
Proof.
  assert (on_grid (0, 0)) as H0 by (unfold on_grid, NUM_ROWS, NUM_COLS; simpl; lia).
  assert (on_grid (0, 1)) as H1 by (unfold on_grid, NUM_ROWS, NUM_COLS; simpl; lia).
  split; [exact H0|]. split; [exact H1|].
  apply (proj1 (bboxes_apart (0, 0) (0, 1) H0 H1)). simpl. lia.
Defined.

(** X16. The point [_get_midpoint] gives, where the value of a tile is
    written, lies strictly inside the box of its cell, within one pixel of
    the centre of the box. *)
Theorem midpoint_in_bbox position :
  on_grid position ->
  let '(x_min, y_min, x_max, y_max) := _get_bbox position in
  let '(x_mid, y_mid) := _get_midpoint position in
  (x_min < inject_Z x_mid /\ inject_Z x_mid < x_max
   /\ y_min < inject_Z y_mid /\ inject_Z y_mid < y_max
   /\ inject_Z x_mid <= (x_min + x_max) / 2 /\ (x_min + x_max) / 2 < inject_Z x_mid + 1
   /\ inject_Z y_mid <= (y_min + y_max) / 2 /\ (y_min + y_max) / 2 < inject_Z y_mid + 1)%Q.
Proof.
  intros Hon. destruct position as [row col].
  destruct (on_grid_cases _ Hon) as [Hrow Hcol]. cbn [fst snd] in *.
  destruct Hrow as [->|[->|[->| ->]]], Hcol as [->|[->|[->| ->]]];
    vm_compute; repeat split; discriminate.
Qed.

(** The first tile is written at (53, 53). *)
Lemma midpoint_in_bbox_witness :
  on_grid (0, 0) /\ _get_midpoint (0, 0) = (53, 53)
  /\ ((_get_bbox (0%Z, 0%Z)).1.1.1 < inject_Z 53)%Q.
Proof.
  assert (on_grid (0, 0)) as H0 by (unfold on_grid, NUM_ROWS, NUM_COLS; simpl; lia).
  split; [exact H0|]. split; [reflexivity|].
  exact (proj1 (midpoint_in_bbox (0, 0) H0)).
Defined.

End Boxes.

(** ** Tiles and scores during play *)

Section Sound.

Implicit Types (m : Model) (g G : Grid) (row : list Tile).

Lemma tile_ok_double (x : Z) : tile_ok (Some x) -> tile_ok (Some (2 * x)) /\ 0 <= 2 * x.
Proof.
  intros [k ->]. split.
  - exists (S k). rewrite (Nat2Z.inj_succ (S k)), Z.pow_succ_r; lia.
  - assert (0 < 2 ^ Z.of_nat (S k)) by (apply Z.pow_pos_nonneg; lia). lia.
Qed.

Lemma tile_ok_starter (t : Tile) : starter t -> tile_ok t.
Proof.
  intros [->|[->| ->]]; [done|by exists 0%nat|by exists 1%nat].
Qed.

Lemma stack_row_ok row : Forall tile_ok row -> Forall tile_ok (stack_row row).
Proof.
  intros Hrow. unfold stack_row. apply Forall_app. split.
  - unfold values. induction Hrow as [|[x|] row Hx _ IH]; cbn; [done| |done].
    by constructor.
  - by apply Forall_replicate.
Qed.

Lemma combine_from_ok (cur : Tile) (rest : list Tile) :
  tile_ok cur -> Forall tile_ok rest ->
  Forall tile_ok (combine_from cur rest).1 /\ 0 <= (combine_from cur rest).2.
Proof.
  intros Hcur Hrest. revert cur Hcur.
  induction Hrest as [|nxt rest Hnxt _ IH]; intros cur Hcur.
  - split; [by constructor|done].
  - cbn [combine_from]. destruct cur as [x|].
    + case_bool_decide.
      * destruct (IH None I) as [Hr Hs]. destruct (tile_ok_double x Hcur).
        destruct (combine_from None rest) as [r s]. cbn [fst snd] in *.
        split; [by constructor|lia].
      * destruct (IH nxt Hnxt) as [Hr Hs].
        destruct (combine_from nxt rest) as [r s]. cbn [fst snd] in *.
        split; [by constructor|done].
    + destruct (IH nxt Hnxt) as [Hr Hs].
      destruct (combine_from nxt rest) as [r s]. cbn [fst snd] in *.
      split; [by constructor|done].
Qed.

Lemma mergeRow_ok row :
  Forall tile_ok row ->
  Forall tile_ok (Spec.mergeRow row).1 /\ 0 <= (Spec.mergeRow row).2.
Proof.
  intros Hrow. unfold Spec.mergeRow. apply stack_row_ok in Hrow.
  destruct (stack_row row) as [|cur rest]; [by split|].
  apply Forall_cons in Hrow as [Hcur Hrest]. cbn [combine_row].
  destruct (combine_from_ok cur rest Hcur Hrest) as [Hr Hs].
  destruct (combine_from cur rest) as [r s]. cbn [fst snd] in *.
  split; [by apply stack_row_ok|done].
Qed.

Lemma moveLeft_ok G :
  Forall (Forall tile_ok) G ->
  Forall (Forall tile_ok) (Spec.moveLeft G).1 /\ 0 <= (Spec.moveLeft G).2.
Proof.
  induction 1 as [|row G Hrow _ [IHg IHs]]; [by split|].
  rewrite moveLeft_cons. cbn [fst snd].
  destruct (mergeRow_ok row Hrow). split; [by constructor|lia].
Qed.

Lemma reverse_ok G : Forall (Forall tile_ok) G -> Forall (Forall tile_ok) (reverse G).
Proof.
  intros HG. unfold reverse. apply Forall_fmap. eapply Forall_impl; [exact HG|].
  intros row Hrow. cbn. by apply Forall_reverse.
Qed.

Lemma cell_ok G r c : Forall (Forall tile_ok) G -> tile_ok (cell G r c).
Proof.
  intros HG. unfold cell. destruct (G !! r) as [row|] eqn:Hr; [|done].
  destruct (row !! c) as [t|] eqn:Hc; [|done]. cbn.
  rewrite Forall_forall in HG.
  assert (Forall tile_ok row) as Hrow by (by eapply HG, list_elem_of_lookup_2).
  rewrite Forall_forall in Hrow. by eapply Hrow, list_elem_of_lookup_2.
Qed.

Lemma transpose_ok G : Forall (Forall tile_ok) G -> Forall (Forall tile_ok) (transpose G).
Proof.
  intros HG. unfold transpose, NUM_ROWS, NUM_COLS.
  cbn [seq fmap list_fmap]. repeat constructor; by apply cell_ok.
Qed.

Lemma moveRight_ok G :
  Forall (Forall tile_ok) G ->
  Forall (Forall tile_ok) (Spec.moveRight G).1 /\ 0 <= (Spec.moveRight G).2.
Proof.
  intros HG. unfold Spec.moveRight. change Spec.reverseRows with reverse.
  destruct (moveLeft_ok _ (reverse_ok G HG)) as [Hg Hs].
  destruct (Spec.moveLeft (reverse G)) as [G' d]. cbn [fst snd] in *.
  split; [by apply reverse_ok|done].
Qed.

(** A move keeps a sound grid sound and never gives a negative score
    delta. *)
Lemma outcome_ok move G (r : Grid * Z) :
  outcome move G = Some r -> grid_ok G -> grid_ok r.1 /\ 0 <= r.2.
Proof.
  unfold outcome, grid_ok. intros Hout [Hshape Htiles].
  repeat case_bool_decide; try done; injection Hout as <-.
  - unfold Spec.moveUp.
    pose proof (is_grid_moveLeft _ (is_grid_transpose G)) as Hs.
    destruct (moveLeft_ok _ (transpose_ok G Htiles)) as [Hg Hd].
    destruct (Spec.moveLeft (transpose G)) as [G' d]. cbn [fst snd] in *.
    split; [|done]. split; [apply is_grid_transpose|by apply transpose_ok].
  - destruct (moveLeft_ok G Htiles). split; [|done].
    split; [by apply is_grid_moveLeft|done].
  - unfold Spec.moveDown.
    pose proof (is_grid_moveRight _ (is_grid_transpose G)) as Hs.
    destruct (moveRight_ok _ (transpose_ok G Htiles)) as [Hg Hd].
    destruct (Spec.moveRight (transpose G)) as [G' d]. cbn [fst snd] in *.
    split; [|done]. split; [apply is_grid_transpose|by apply transpose_ok].
  - destruct (moveRight_ok G Htiles). split; [|done].
    split; [by apply is_grid_moveRight|done].
Qed.

Lemma add_tile_ok pick four m m' :
  add_tile pick four m = Some m' -> model_ok m -> model_ok m'.
Proof.
  intros Hadd [[[Hshape Htiles] Hscore] Hhist].
  pose proof (add_tile_frame _ _ _ _ Hadd) as (Hs & _ & Hh).
  pose proof (add_tile_spec _ _ _ _ Hadd) as (_ & _ & Hshape').
  cbn [fst snd] in *.
  split; [split; [split; [by apply Hshape'|]|cbn [snd]; by rewrite Hs]
         |by rewrite Hh].
  cbn [fst]. unfold add_tile in Hadd.
  destruct (generate_tile pick four (tiles_matrix m)) as [[[r c] v]|] eqn:Hgen;
    [|done].
  cbn [mbind option_bind] in Hadd. injection Hadd as <-.
  apply generate_tile_spec in Hgen as [_ Hv].
  unfold set_tiles. cbn [tiles_matrix fst snd].
  apply Forall_alter; [done|]. intros row _ Hrow.
  apply Forall_insert; [done|]. apply tile_ok_starter. unfold starter.
  destruct Hv as [->| ->]; auto.
Qed.

Lemma new_game_ok d1 d2 m m' :
  new_game d1 d2 m = Some m' ->
  0 <= _score m -> Forall snapshot_ok (_previous_info m) -> model_ok m'.
Proof.
  unfold new_game. intros Hnew Hscore Hhist.
  destruct (add_tile d1.1 d1.2 (set_tiles blank_grid m)) as [m1|] eqn:H1; [|done].
  cbn [mbind option_bind] in Hnew.
  eapply add_tile_ok; [exact Hnew|]. eapply add_tile_ok; [exact H1|].
  split; [split; [split; [apply is_grid_blank|repeat constructor]|done]|done].
Qed.

Lemma attempt_move_ok move b m m' :
  attempt_move move m = Some (b, m') -> model_ok m -> model_ok m'.
Proof.
  rewrite attempt_move_eq. destruct (pushed m) as [h|] eqn:Hp; [|done].
  cbn [mbind option_bind]. destruct (changes move m) eqn:Hch;
    intros [= <- <-] Hok; [|done].
  destruct Hok as [[Hgrid Hscore] Hhist]. cbn [fst snd] in *.
  apply pushed_last in Hp. rewrite move_detected_outcome.
  destruct (outcome move (tiles_matrix m)) as [r|] eqn:Hout.
  - destruct (outcome_ok _ _ _ Hout Hgrid) as [Hg Hd].
    unfold model_ok, snapshot_ok, set_previous_info, commit.
    cbn [tiles_matrix _score _previous_info fst snd].
    split; [split; [done|lia]|]. rewrite Hp. apply Forall_app. split.
    + case_bool_decide; [by apply Forall_drop|done].
    + constructor; [by split|constructor].
  - unfold changes in Hch. rewrite move_detected_outcome, Hout in Hch.
    by apply bool_decide_eq_true_1 in Hch.
Qed.

Lemma use_undo_ok m : model_ok m -> model_ok (use_undo m).
Proof.
  intros Hok. destruct (decide (0 < _undos m)) as [Hu|Hu];
    [|rewrite use_undo_noop; [done|lia]].
  destruct (_previous_info m) as [|[g s] h _] eqn:Hh using rev_ind;
    [rewrite use_undo_noop; [done|by right]|].
  rewrite (use_undo_pop m h g s Hu Hh). destruct Hok as [_ Hhist].
  rewrite Hh in Hhist. apply Forall_app in Hhist as [Hhist Hlast].
  apply Forall_cons in Hlast as [Hlast _]. by split.
Qed.

Lemma step_ok m m' : step no_snapshot m m' -> model_ok m -> model_ok m'.
Proof.
  intros Hstep Hok. destruct Hstep as
    [d1 d2 m m' H|pick four m m' H|move b m m' H|m|m|tiles score undos h m H].
  - destruct Hok as [[_ Hscore] Hhist]. by eapply new_game_ok.
  - by eapply add_tile_ok.
  - by eapply attempt_move_ok.
  - unfold has_lost. by rewrite has_lost_rows_state.
  - by apply use_undo_ok.
  - destruct H.
Qed.

(** X17. In a game played from a new model without loading, the grid is
    always 4x4, every tile is a power of two from 2 on and the score is
    never negative; the same holds for every snapshot in the undo
    history. *)
Theorem play_keeps_model_ok m : reachable no_snapshot m -> model_ok m.
Proof.
  induction 1 as [d1 d2 m Hinit|m m' _ IH Hstep]; [|by eapply step_ok].
  unfold init in Hinit.
  destruct (new_game d1 d2 (mkModel [] 0 0 [])) as [m0|] eqn:Hnew; [|done].
  injection Hinit as <-. apply new_game_ok in Hnew as [[Hg _] _]; [|done..].
  split; [split; [exact Hg|done]|constructor].
Qed.

(** Three moves into a game all is sound. *)
Lemma play_keeps_model_ok_witness :
  reachable no_snapshot third_move /\ model_ok third_move.
Proof.
  split; [apply reachable_third_move|].
  exact (play_keeps_model_ok third_move (reachable_third_move no_snapshot)).
Defined.

(** X18. A committed or rejected move never lowers the score of a game
    whose grid is sound. *)
Theorem attempt_move_score move b m m' :
  attempt_move move m = Some (b, m') -> grid_ok (tiles_matrix m) ->
  _score m <= _score m'.
Proof.
  rewrite attempt_move_eq. destruct (pushed m) as [h|]; [|done].
  cbn [mbind option_bind]. destruct (changes move m);
    intros [= <- <-] Hgrid; [|done].
  rewrite move_detected_outcome.
  destruct (outcome move (tiles_matrix m)) as [r|] eqn:Hout; [|done].
  destruct (outcome_ok _ _ _ Hout Hgrid) as [_ Hd].
  cbn [set_previous_info commit _score]. lia.
Qed.

(** The first move of the opening scores 4. *)
Lemma attempt_move_score_witness :
  attempt_move LEFT opening = Some (true, first_move)
  /\ grid_ok (tiles_matrix opening)
  /\ _score opening <= _score first_move.
Proof.
  assert (attempt_move LEFT opening = Some (true, first_move)) as Hret
    by (vm_compute; reflexivity).
  assert (grid_ok (tiles_matrix opening)) as Hgrid.
  { split; [split; [done|repeat constructor]|].
    repeat constructor; by exists 0%nat. }
  split; [exact Hret|]. split; [exact Hgrid|].
  exact (attempt_move_score LEFT true opening first_move Hret Hgrid).
Defined.

End Sound.

(** ** Loss detection and the history in play *)

Section Endgame.

Implicit Types (m : Model).

(** The opening has empty cells and is not lost. *)
Lemma has_lost_empty_cell_witness :
  blank_row ∈ tiles_matrix opening /\ None ∈ blank_row
  /\ (has_lost opening).1 = false.
Proof.
  assert (blank_row ∈ tiles_matrix opening) as Hrow
    by (unfold opening; cbn [tiles_matrix]; repeat constructor).
  assert (None ∈ blank_row) as Hnone by (unfold blank_row; repeat constructor).
  split; [exact Hrow|]. split; [exact Hnone|].
  exact (has_lost_empty_cell opening blank_row Hrow Hnone).
Defined.

(** A full grid of 2s with a snapshot in the history is not lost. *)
Lemma has_lost_adjacent_pair_witness :
  _previous_info stuck_full <> []
  /\ is_grid (tiles_matrix stuck_full)
  /\ (has_lost stuck_full).1 = false.
Proof.
  assert (_previous_info stuck_full <> []) as Hh by discriminate.
  assert (is_grid (tiles_matrix stuck_full)) as Hg
    by (split; [reflexivity|repeat constructor]).
  assert (full (tiles_matrix stuck_full)) as Hfull.
  { repeat constructor; intros Hin;
      repeat (apply elem_of_cons in Hin as [Hin|Hin]; [discriminate Hin|]);
      by apply elem_of_nil in Hin. }
  split; [exact Hh|]. split; [exact Hg|].
  apply (has_lost_adjacent_pair stuck_full 0 0 2 Hh Hg Hfull); [reflexivity|].
  left. reflexivity.
Defined.

Lemma reachable_mono (ok ok' : Z -> list (Grid * Z) -> Prop) m :
  (forall undos previous_info, ok undos previous_info -> ok' undos previous_info) ->
  reachable ok m -> reachable ok' m.
Proof.
  intros Hsub. induction 1 as [d1 d2 m Hinit|m m' _ IH Hstep].
  - by eapply reach_init.
  - eapply reach_step; [exact IH|].
    destruct Hstep as
      [d1 d2 m m' H|pick four m m' H|move b m m' H|m|m|tiles score undos h m H].
    + by eapply step_new_game.
    + by eapply step_add_tile.
    + by eapply step_attempt_move.
    + apply step_has_lost.
    + apply step_use_undo.
    + apply step_loading. by apply Hsub.
Qed.

Lemma reachable_bounded m :
  reachable bounded_snapshot m -> history_bounded m.
Proof.
  induction 1 as [d1 d2 m Hinit|m m' _ IH Hstep].
  - by eapply init_bounded.
  - by eapply step_bounded.
Qed.

Lemma reachable_credits m :
  reachable credits_in_range m -> 0 <= _undos m <= 3.
Proof.
  induction 1 as [d1 d2 m Hinit|m m' _ IH Hstep].
  - unfold init in Hinit. destruct (new_game d1 d2 _); [|done].
    injection Hinit as <-. simpl. lia.
  - by eapply step_credits.
Qed.

(** X21. In a game played from a new model without loading, the undo
    history never holds more than four snapshots. *)
Theorem history_at_most_four m :
  reachable no_snapshot m -> (length (_previous_info m) <= 4)%nat.
Proof.
  intros Hreach.
  assert (history_bounded m) as Hb.
  { apply reachable_bounded. eapply reachable_mono; [|exact Hreach]. done. }
  assert (0 <= _undos m <= 3) as Hu.
  { apply reachable_credits. eapply reachable_mono; [|exact Hreach]. done. }
  unfold history_bounded in Hb. lia.
Qed.

(** Three moves into a game there are three snapshots. *)
Lemma history_at_most_four_witness :
  reachable no_snapshot third_move
  /\ (length (_previous_info third_move) <= 4)%nat.
Proof.
  split; [apply reachable_third_move|].
  exact (history_at_most_four third_move (reachable_third_move no_snapshot)).
Defined.

End Endgame.
